(** * pyblish.plugin: discovery, validation, ordering and execution of plug-ins

    A shallow embedding of [pyblish/plugin.py] (Python 2).  Python objects
    live in a heap and are referred to by address; dictionaries are finite
    maps; functions that mutate state or raise are written in a state and
    exception monad over the interpreter's [World]. *)

From stdpp Require Import gmap strings list fin_maps numbers sorting.

Open Scope string_scope.
Open Scope Z_scope.
Open Scope list_scope.

(** ** Values, exceptions and outcomes *)

Definition loc := positive.

(** The Python values the module passes around.  [VContext] and
    [VInstance] are references into the heap; [VObject] is any other object,
    given by its attributes. *)
#[warnings="-register-all"]
Inductive val :=
  | VNone
  | VBool (b : bool)
  | VInt (z : Z)
  | VStr (s : string)
  | VContext (l : loc)
  | VInstance (l : loc)
  | VObject (attrs : list (string * val)).

(** Whether a raised object derives from [Exception], which is what an
    [except Exception] clause matches, or only from [BaseException]
    ([KeyboardInterrupt], [SystemExit], [GeneratorExit]). *)
Inductive exc_root := BaseExceptionOnly | ExceptionDerived.

Record exn := Exn {
  exn_type : string;
  exn_root : exc_root;
  message : val;
  exc_info_tb : string;          (* the interpreter's trace, sys.exc_info()[2] *)
  traceback : option string      (* the attribute set by extract_traceback *)
}.

Definition isinstance_Exception (e : exn) : bool :=
  match exn_root e with ExceptionDerived => true | BaseExceptionOnly => false end.

Definition KeyError (msg : string) : exn :=
  Exn "KeyError" ExceptionDerived (VStr msg) "pyblish/plugin.py" None.
Definition ValueError (msg : string) : exn :=
  Exn "ValueError" ExceptionDerived (VStr msg) "pyblish/plugin.py" None.
Definition TypeError (msg : string) : exn :=
  Exn "TypeError" ExceptionDerived (VStr msg) "pyblish/plugin.py" None.
Definition AttributeError (msg : string) : exn :=
  Exn "AttributeError" ExceptionDerived (VStr msg) "pyblish/plugin.py" None.
Definition Exception (code : Z) : exn :=
  Exn "Exception" ExceptionDerived (VInt code) "pyblish/plugin.py" None.

Inductive outcome (A : Type) :=
  | Return (a : A)
  | Raise (e : exn).
Arguments Return {A} a.
Arguments Raise {A} e.

(** Modelled from the spec: [pyblish.lib.extract_traceback] is not among the
    sources.  It keeps the failure object and stores on it the trace
    information of the place it was raised at. *)
Definition extract_traceback (error : exn) : exn :=
  Exn (exn_type error) (exn_root error) (message error)
      (exc_info_tb error) (Some (exc_info_tb error)).

(** ** Log records and results *)

Record LogRecord := Log { levelname : string; msg : string; args : list string }.

(** The result dictionary of [_process] and [_repair], one field per key.
    The plug-in class is held by its identity. *)
Record Result := mkResult {
  success : bool;
  plugin : nat;
  instance : option loc;
  error : option exn;
  records : list LogRecord;
  duration : option Z
}.

(** Values of an entity's data store: a plain value, or the list of results
    kept under ["results"]. *)
Inductive dval :=
  | DVal (v : val)
  | DResults (l : list Result).

(** ** The entity model: AbstractEntity, Context, Instance *)

(** An [AbstractEntity] is a list (its members) with a [_data] dictionary.
    Members are instances, held by address. *)
Record Entity := mkEntity {
  members : list loc;
  _data : gmap string dval
}.

(** A parent is any [AbstractEntity]: a context or an instance. *)
Inductive eref :=
  | RContext (l : loc)
  | RInstance (l : loc).

Record InstanceObj := mkInstance {
  name : string;
  parent : option eref;
  entity : Entity
}.

Record Heap := mkHeap {
  contexts : gmap loc Entity;
  instances : gmap loc InstanceObj
}.

Definition empty_entity : Entity := mkEntity [] ∅.

(** A reference that the heap does not hold does not occur in a Python run;
    reading one gives an object with no members, no data and no attributes. *)
Definition get_entity (h : Heap) (r : eref) : Entity :=
  match r with
  | RContext l => default empty_entity (contexts h !! l)
  | RInstance l => default empty_entity (entity <$> instances h !! l)
  end.

Definition set_entity (h : Heap) (r : eref) (e : Entity) : Heap :=
  match r with
  | RContext l => mkHeap (<[l := e]> (contexts h)) (instances h)
  | RInstance l =>
      mkHeap (contexts h)
             (alter (fun o => mkInstance (name o) (parent o) e) l (instances h))
  end.

Fixpoint assoc (k : string) (l : list (string * val)) : option val :=
  match l with
  | [] => None
  | (k', v) :: l' => if bool_decide (k' = k) then Some v else assoc k l'
  end.

(** [hasattr(other, "name")] and [getattr(other, "name", None)]. *)
Definition hasattr_name (h : Heap) (other : val) : bool :=
  match other with
  | VInstance l => bool_decide (is_Some (instances h !! l))
  | VObject attrs => bool_decide (is_Some (assoc "name" attrs))
  | _ => false
  end.

Definition getattr_name (h : Heap) (other : val) : val :=
  match other with
  | VInstance l => default VNone (VStr ∘ name <$> instances h !! l)
  | VObject attrs => default VNone (assoc "name" attrs)
  | _ => VNone
  end.

(** [s == v] for a string [s]: only an equal string is equal to it. *)
Definition str_eq (s : string) (v : val) : bool :=
  match v with
  | VStr t => bool_decide (s = t)
  | _ => false
  end.

Module Instance.

(** [self.name == getattr(other, "name", None)] *)
Definition __eq__ (h : Heap) (self : loc) (other : val) : bool :=
  match instances h !! self with
  | Some o => str_eq (name o) (getattr_name h other)
  | None => false
  end.

Definition __ne__ (h : Heap) (self : loc) (other : val) : bool :=
  match instances h !! self with
  | Some o => negb (str_eq (name o) (getattr_name h other))
  | None => true
  end.

End Instance.

Module AbstractEntity.

(** [other in self]: some member is [other] itself or equal to it. *)
Definition __contains__ (h : Heap) (self : eref) (other : loc) : bool :=
  existsb (fun el => bool_decide (el = other)
                     || Instance.__eq__ h el (VInstance other))
          (members (get_entity h self)).

(** [if other not in self: return self.append(other)] *)
Definition add (self : eref) (other : loc) (h : Heap) : Heap :=
  if __contains__ h self other then h
  else
    let e := get_entity h self in
    set_entity h self (mkEntity (members e ++ [other]) (_data e)).

(** [self.index(other)]: position of the first member equal to [other]. *)
Fixpoint index (h : Heap) (l : list loc) (other : loc) : option nat :=
  match l with
  | [] => None
  | el :: l' =>
      if bool_decide (el = other) || Instance.__eq__ h el (VInstance other)
      then Some 0%nat
      else S <$> index h l' other
  end.

(** [index = self.index(other); return self.pop(index)] *)
Definition remove (self : eref) (other : loc) (h : Heap)
  : outcome loc * Heap :=
  let e := get_entity h self in
  match index h (members e) other with
  | None => (Raise (ValueError "x not in list"), h)
  | Some i =>
      match members e !! i with
      | Some el =>
          (Return el, set_entity h self (mkEntity (delete i (members e)) (_data e)))
      | None => (Raise (ValueError "x not in list"), h)
      end
  end.

(** [data()] with no key: a copy of the dictionary. *)
Definition data_copy (h : Heap) (self : eref) : gmap string dval :=
  _data (get_entity h self).

(** [data(key, default)]: [self._data.get(key, default)] *)
Definition data (h : Heap) (self : eref) (key : string) (default_ : dval) : dval :=
  default default_ (_data (get_entity h self) !! key).

(** [self._data[key] = value] *)
Definition set_data (self : eref) (key : string) (value : dval) (h : Heap) : Heap :=
  let e := get_entity h self in
  set_entity h self (mkEntity (members e) (<[key := value]> (_data e))).

(** [self._data.pop(key)] *)
Definition remove_data (self : eref) (key : string) (h : Heap)
  : outcome unit * Heap :=
  let e := get_entity h self in
  match _data e !! key with
  | None => (Raise (KeyError key), h)
  | Some _ => (Return (), set_entity h self (mkEntity (members e) (delete key (_data e))))
  end.

Definition has_data (h : Heap) (self : eref) (key : string) : bool :=
  bool_decide (is_Some (_data (get_entity h self) !! key)).

End AbstractEntity.

(** The constructor and the [data] override of [Instance], which call the
    methods of [AbstractEntity]. *)
Module InstanceObject.

(** [Instance(name, parent)]: a new object with no members and no data;
    [self.name] and [self.parent] are set, then [parent.add(self)]. *)
Definition __init__ (name_ : string) (parent_ : option eref) (h : Heap)
  : loc * Heap :=
  let self := fresh (dom (instances h)) in
  let h1 := mkHeap (contexts h)
                   (<[self := mkInstance name_ parent_ empty_entity]> (instances h)) in
  match parent_ with
  | Some p => (self, AbstractEntity.add p self h1)
  | None => (self, h1)
  end.

(** [Instance.data]: the [name] field stands in for a missing ["name"]
    entry. *)
Definition data (h : Heap) (self : loc) (key : string) (default_ : dval) : dval :=
  let value := AbstractEntity.data h (RInstance self) key default_ in
  match value, instances h !! self with
  | DVal VNone, Some o => if bool_decide (key = "name") then DVal (VStr (name o)) else value
  | _, _ => value
  end.

End InstanceObject.

Module Context.

(** [instance = Instance(name, parent=self); return instance] *)
Definition create_instance (self : loc) (name_ : string) (h : Heap)
  : loc * Heap :=
  InstanceObject.__init__ name_ (Some (RContext self)) h.

End Context.

(** ** Callables and plug-in classes *)

(** A callable, as [Provider.invoke] sees it: the parameter names that
    [inspect.getargspec(func)[0]] reports, and what a call with keyword
    arguments does to the entities, the value or failure it ends in and the
    log records it emits. *)
Record Callable := mkCallable {
  func_id : nat;
  argspec : list string;
  func_body : gmap string val → Heap → outcome val * Heap * list LogRecord
}.

(** The classes of the module's hierarchy. *)
Inductive Class := Plugin | Selector | Validator | Extractor | Conformer.

Global Instance Class_eq_dec : EqDecision Class.
Proof. solve_decision. Defined.

(* Aliases *)
Definition Collector := Selector.
Definition Integrator := Conformer.

(** An object handed to the registry or found in a module: its identity,
    what [inspect.isclass] and [hasattr(_, "__call__")] say of it, the
    classes of the hierarchy it derives from, and its attributes. *)
Record PluginClass := mkPlugin {
  oid : nat;
  __name__ : string;
  isclass : bool;
  has__call__ : bool;
  mro : list Class;
  hosts : list string;
  families : list string;
  version : Z * Z * Z;
  order : option Z;
  optional : bool;
  requires : val;
  other_attrs : list string;     (* further attribute names, for hasattr *)
  __init__ : outcome unit;       (* what the call plugin() ends in *)
  process_method : Callable;
  repair_method : Callable
}.

Definition issubclass (p : PluginClass) (c : Class) : bool :=
  bool_decide (c ∈ mro p).

Definition hasattr (p : PluginClass) (a : string) : bool :=
  bool_decide (a ∈ other_attrs p).

Definition isinstance_basestring (v : val) : bool :=
  match v with VStr _ => true | _ => false end.

(** [plugin in plugins]: classes compare by identity. *)
Definition plugin_in (p : PluginClass) (l : list PluginClass) : bool :=
  existsb (fun q => bool_decide (oid q = oid p)) l.

(** ** The interpreter state and the monad of the module's functions *)

Record World := mkWorld {
  _registered_plugins : gmap string PluginClass;
  _registered_paths : list string;
  _registered_services : gmap string val;
  heap : Heap;
  log : list LogRecord;                       (* output of the module's logger *)
  root_handlers : gmap nat (list LogRecord);  (* handlers of the root logger, with their records *)
  calls : list (nat * gmap string val);       (* calls made so far: callable and keyword arguments *)
  ticks : nat                                 (* number of readings of time.time() *)
}.

Definition set_plugins (f : gmap string PluginClass → gmap string PluginClass) (w : World) : World :=
  mkWorld (f (_registered_plugins w)) (_registered_paths w) (_registered_services w)
          (heap w) (log w) (root_handlers w) (calls w) (ticks w).
Definition set_paths (f : list string → list string) (w : World) : World :=
  mkWorld (_registered_plugins w) (f (_registered_paths w)) (_registered_services w)
          (heap w) (log w) (root_handlers w) (calls w) (ticks w).
Definition set_services (f : gmap string val → gmap string val) (w : World) : World :=
  mkWorld (_registered_plugins w) (_registered_paths w) (f (_registered_services w))
          (heap w) (log w) (root_handlers w) (calls w) (ticks w).
Definition set_heap (f : Heap → Heap) (w : World) : World :=
  mkWorld (_registered_plugins w) (_registered_paths w) (_registered_services w)
          (f (heap w)) (log w) (root_handlers w) (calls w) (ticks w).
Definition set_log (f : list LogRecord → list LogRecord) (w : World) : World :=
  mkWorld (_registered_plugins w) (_registered_paths w) (_registered_services w)
          (heap w) (f (log w)) (root_handlers w) (calls w) (ticks w).
Definition set_handlers (f : gmap nat (list LogRecord) → gmap nat (list LogRecord)) (w : World) : World :=
  mkWorld (_registered_plugins w) (_registered_paths w) (_registered_services w)
          (heap w) (log w) (f (root_handlers w)) (calls w) (ticks w).
Definition set_calls (f : list (nat * gmap string val) → list (nat * gmap string val)) (w : World) : World :=
  mkWorld (_registered_plugins w) (_registered_paths w) (_registered_services w)
          (heap w) (log w) (root_handlers w) (f (calls w)) (ticks w).
Definition set_ticks (f : nat → nat) (w : World) : World :=
  mkWorld (_registered_plugins w) (_registered_paths w) (_registered_services w)
          (heap w) (log w) (root_handlers w) (calls w) (f (ticks w)).

(** A computation runs from a state to a value or a raised exception, and
    the state it leaves behind in either case. *)
Definition M (A : Type) : Type := World → outcome A * World.

Global Instance M_ret : MRet M := fun A a w => (Return a, w).
Global Instance M_bind : MBind M := fun A B f m w =>
  match m w with
  | (Return a, w') => f a w'
  | (Raise e, w') => (Raise e, w')
  end.

Definition raise {A} (e : exn) : M A := fun w => (Raise e, w).
Definition get_world : M World := fun w => (Return w, w).
Definition modify (f : World → World) : M unit := fun w => (Return (), f w).

(** [try: body  except Exception as error: handler(error)] *)
Definition try_except {A} (body : M A) (handler : exn → M A) : M A := fun w =>
  match body w with
  | (Return a, w') => (Return a, w')
  | (Raise e, w') =>
      if isinstance_Exception e then handler e w' else (Raise e, w')
  end.

(** [for x in l: acc = f(acc, x)] *)
Fixpoint for_each {A B} (l : list A) (acc : B) (f : B → A → M B) : M B :=
  match l with
  | [] => mret acc
  | x :: l' => acc' ← f acc x; for_each l' acc' f
  end.

(** The module's logger. *)
Definition log_emit (level : string) (m : string) (a : list string) : M unit :=
  modify (set_log (fun l => l ++ [Log level m a])).

(** Calling a callable with keyword arguments: its body runs on the heap,
    the call is noted, and every handler of the root logger receives the
    records the body emits. *)
Definition call (func : Callable) (kw : gmap string val) : M val := fun w =>
  let '(r, h', recs) := func_body func kw (heap w) in
  (r, set_handlers (fmap (fun l => l ++ recs))
        (set_calls (fun c => c ++ [(func_id func, kw)])
           (set_heap (fun _ => h') w))).

(** ** The environment: collaborators outside the module *)

Record Env := mkEnv {
  executable : string;          (* os.path.basename(sys.executable).lower() *)
  iscompatible : val → bool;    (* iscompatible.iscompatible(requirements, pyblish.version_info) *)
  __version__ : string;
  time_at : nat → Z;            (* the k-th reading of time.time() *)
  config : string → string;     (* Config()[key] for the regex keys *)
  config_paths : list string;   (* configured_paths() *)
  env_paths : list string;      (* environment_paths() *)
  normpath : string → string;
  path_join : string → string → string;
  splitext : string → string;
  isdir : string → bool;
  isfile : string → bool;
  listdir : string → list string;
  re_match : string → string → bool;
  import_module : string → string → outcome (list (string * PluginClass));
                                (* sys.path[0], module name: the names of dir(module) and their objects *)
  process_1_0 : PluginClass → loc → option loc → M Result;
  repair_1_0 : PluginClass → loc → option loc → M Result
}.

(** [time.time()] *)
Definition time (env : Env) : M Z := fun w =>
  (Return (time_at env (ticks w)), set_ticks S w).

(** ** Provider: dependency injection *)

Module Provider.

Record t := mk { _services : gmap string val }.

Definition __init__ : t := mk ∅.

(** [s = pyblish._registered_services.copy(); s.update(self._services)] *)
Definition services (self : t) : M (gmap string val) :=
  w ← get_world;
  mret (_services self ∪ _registered_services w).

(** [[a for a in inspect.getargspec(func)[0] if a not in ("self", "cls")]] *)
Definition args (func : Callable) : list string :=
  filter (fun a => a ∉ ["self"; "cls"]) (argspec func).

Definition invoke (self : t) (func : Callable) : M val :=
  services_ ← services self;
  if negb (forallb (fun arg => bool_decide (arg ∈ dom services_)) (args func))
  then raise (KeyError "Unavailable service requested.")
  else
    items ← services self;
    let inject := filter (fun kv => kv.1 ∈ args func) items in
    call func inject.

Definition inject (self : t) (name_ : string) (obj : val) : t :=
  mk (<[name_ := obj]> (_services self)).

End Provider.

(** ** The execution engine *)

Definition opt_instance (instance_ : option loc) : val :=
  match instance_ with Some l => VInstance l | None => VNone end.

(** [logging.getLogger().addHandler(MessageHandler(records))] with a new,
    empty [records] list. *)
Definition addHandler : M nat := fun w =>
  let handler := fresh (dom (root_handlers w)) in
  (Return handler, set_handlers (insert handler []) w).

Definition handler_records (handler : nat) : M (list LogRecord) :=
  w ← get_world; mret (default [] (root_handlers w !! handler)).

Definition removeHandler (handler : nat) : M unit :=
  modify (set_handlers (delete handler)).

(** [context.data("results").append(result)] *)
Definition append_result (context : loc) (result : Result) : M unit :=
  w ← get_world;
  match AbstractEntity.data (heap w) (RContext context) "results" (DVal VNone) with
  | DResults l =>
      modify (set_heap (AbstractEntity.set_data (RContext context) "results"
                          (DResults (l ++ [result]))))
  | DVal _ => raise (AttributeError "object has no attribute 'append'")
  end.

(** [if "results" not in context.data(): context.set_data("results", list())] *)
Definition ensure_results (context : loc) (h : Heap) : Heap :=
  if bool_decide ("results" ∈ dom (AbstractEntity.data_copy h (RContext context)))
  then h
  else AbstractEntity.set_data (RContext context) "results" (DResults []) h.

(** The steps shared by [_process] and [_repair], which differ in the method
    they invoke. *)
Definition run_method (env : Env) (method : PluginClass → Callable)
    (plugin_ : PluginClass) (context : loc) (instance_ : option loc) : M Result :=
  modify (set_heap (ensure_results context));;
  let result := mkResult false (oid plugin_) instance_ None [] None in
  (fun w => (__init__ plugin_, w)) ;;
  let provider := Provider.__init__ in
  let provider := Provider.inject provider "context" (VContext context) in
  let provider := Provider.inject provider "instance" (opt_instance instance_) in
  handler ← addHandler;
  __start ← time env;
  result ← try_except
    (Provider.invoke provider (method plugin_);;
     mret (mkResult true (plugin result) (instance result) (error result)
                    (records result) (duration result)))
    (fun error_ =>
       let error_ := extract_traceback error_ in
       mret (mkResult (success result) (plugin result) (instance result)
                      (Some error_) (records result) (duration result)));
  __end ← time env;
  records_ ← handler_records handler;
  let result := mkResult (success result) (plugin result) (instance result)
                         (error result) (records result ++ records_) (duration result) in
  removeHandler handler;;
  let result := mkResult (success result) (plugin result) (instance result)
                         (error result) (records result)
                         (Some ((__end - __start) * 1000)) in
  append_result context result;;
  mret result.

Definition _process (env : Env) := run_method env process_method.
Definition _repair (env : Env) := run_method env repair_method.

Definition process (env : Env) (plugin_ : PluginClass) (context : loc)
    (instance_ : option loc) : M Result :=
  if hasattr plugin_ "process_instance" || hasattr plugin_ "process_context"
  then process_1_0 env plugin_ context instance_
  else _process env plugin_ context instance_.

Definition repair (env : Env) (plugin_ : PluginClass) (context : loc)
    (instance_ : option loc) : M Result :=
  if hasattr plugin_ "repair_instance" || hasattr plugin_ "repair_context"
  then repair_1_0 env plugin_ context instance_
  else _repair env plugin_ context instance_.

(** ** Host detection *)

(** [needle in hay] on strings. *)
Fixpoint str_in (needle hay : string) : bool :=
  String.prefix needle hay
  || match hay with
     | EmptyString => false
     | String _ rest => str_in needle rest
     end.

Definition dquote : string := String (Ascii.ascii_of_nat 34) EmptyString.

Definition current_host (env : Env) : outcome string :=
  let executable_ := executable env in
  if str_in "python" executable_ then Return "python"
  else if str_in "maya" executable_ then Return "maya"
  else if str_in "nuke" executable_ then Return "nuke"
  else if str_in "modo" executable_ then Return "modo"
  else if str_in "houdini" executable_ then Return "houdini"
  else Raise (ValueError ("Could not determine host from " +:+ dquote
                          +:+ executable_ +:+ dquote)).

(** ** The registry *)

Definition register_plugin (plugin_ : PluginClass) : M unit :=
  if negb (has__call__ plugin_)
  then raise (TypeError "Plug-in must be callable returning an instance of a class")
  else modify (set_plugins (insert (__name__ plugin_) plugin_)).

Definition deregister_plugin (plugin_ : PluginClass) : M unit :=
  w ← get_world;
  match _registered_plugins w !! __name__ plugin_ with
  | Some _ => modify (set_plugins (delete (__name__ plugin_)))
  | None => raise (KeyError (__name__ plugin_))
  end.

Definition deregister_all_plugins : M unit :=
  modify (set_plugins (fun _ => ∅)).

Definition register_service (name_ : string) (obj : val) : M unit :=
  modify (set_services (insert name_ obj)).

Definition deregister_service (name_ : string) : M unit :=
  w ← get_world;
  match _registered_services w !! name_ with
  | Some _ => modify (set_services (delete name_))
  | None => raise (KeyError name_)
  end.

Definition deregister_all_services : M unit :=
  modify (set_services (fun _ => ∅)).

Definition registered_services : M (gmap string val) :=
  w ← get_world; mret (_registered_services w).

(** Returns the path added, or [None] (the value of [log.warning]) when the
    path is registered already. *)
Definition register_plugin_path (path : string) : M (option string) :=
  w ← get_world;
  if bool_decide (path ∈ _registered_paths w)
  then log_emit "WARNING" "Path already registered: {0}" [path];; mret None
  else modify (set_paths (fun l => l ++ [path]));; mret (Some path).

(** [list.remove]: drops the first occurrence. *)
Fixpoint list_remove (x : string) (l : list string) : option (list string) :=
  match l with
  | [] => None
  | y :: l' => if bool_decide (y = x) then Some l' else cons y <$> list_remove x l'
  end.

Definition deregister_plugin_path (path : string) : M unit :=
  w ← get_world;
  match list_remove path (_registered_paths w) with
  | Some l => modify (set_paths (fun _ => l))
  | None => raise (ValueError "list.remove(x): x not in list")
  end.

Definition deregister_all_paths : M unit :=
  modify (set_paths (fun _ => [])).

Definition registered_paths : M (list string) :=
  w ← get_world; mret (_registered_paths w).

Definition registered_plugins : M (list PluginClass) :=
  w ← get_world; mret (snd <$> map_to_list (_registered_plugins w)).

(** [configured_paths()] and [environment_paths()] read the configuration
    file and the process environment; the environment gives their results. *)
Definition configured_paths (env : Env) : M (list string) := mret (config_paths env).
Definition environment_paths (env : Env) : M (list string) := mret (env_paths env).

Definition plugin_paths (env : Env) : M (list string) :=
  r ← registered_paths;
  c ← configured_paths env;
  e ← environment_paths env;
  mret (foldl (fun paths path =>
                 if bool_decide (path ∈ paths) then paths else paths ++ [path])
              [] (r ++ c ++ e)).

(** ** Validity and compatibility *)

(** The [try] block of [plugin_is_valid]: the rule of each role, raising
    [Exception(0)], [Exception(1)] or [Exception(2)]. *)
Definition check_roles (plugin_ : PluginClass) : outcome unit :=
  if issubclass plugin_ Selector && negb (bool_decide (hosts plugin_ ≠ []))
  then Raise (Exception 0)
  else if (issubclass plugin_ Validator || issubclass plugin_ Extractor)
          && negb (bool_decide (families plugin_ ≠ []))
          && negb (bool_decide (hosts plugin_ ≠ []))
  then Raise (Exception 1)
  else if issubclass plugin_ Conformer && negb (bool_decide (families plugin_ ≠ []))
  then Raise (Exception 2)
  else Return ().

Definition val_is_int (v : val) (z : Z) : bool :=
  match v with VInt z' => bool_decide (z' = z) | _ => false end.

Definition plugin_is_valid (plugin_ : PluginClass) : M bool :=
  if negb (isclass plugin_) then mret false
  else if negb (issubclass plugin_ Plugin) then mret false
  else if negb (isinstance_basestring (requires plugin_))
  then log_emit "DEBUG" "Plug-in requires must be of type string: %s" [__name__ plugin_];;
       mret false
  else
    match check_roles plugin_ with
    | Raise e =>
        (if val_is_int (message e) 0
         then log_emit "ERROR" "%s: Plug-in not valid, missing hosts." [__name__ plugin_]
         else mret ());;
        (if val_is_int (message e) 1
         then log_emit "ERROR" "%s: Plug-in not valid, missing hosts and families."
                       [__name__ plugin_]
         else mret ());;
        (if val_is_int (message e) 2
         then log_emit "ERROR" "%s: Plug-in not valid, missing families." [__name__ plugin_]
         else mret ());;
        mret false
    | Return _ => mret true
    end.

Definition version_is_compatible (env : Env) (plugin_ : PluginClass) : M bool :=
  if negb (iscompatible env (requires plugin_)) then mret false else mret true.

(** [any(["*" in plugin.hosts, current_host() in plugin.hosts])]: both
    elements of the list are evaluated before [any] looks at them. *)
Definition host_is_compatible (env : Env) (plugin_ : PluginClass) : M bool :=
  let wildcard := bool_decide ("*" ∈ hosts plugin_) in
  match current_host env with
  | Raise e => raise e
  | Return host => mret (wildcard || bool_decide (host ∈ hosts plugin_))
  end.

(** ** Ordering *)

(** The key of the sort, [p.order], is a number or [None]; the stages use 0,
    1, 2 and 3.  Python 2 compares [None] with numbers without raising, and
    puts it below all of them. *)
Definition order_lt (a b : option Z) : bool :=
  match a, b with
  | None, None => false
  | None, Some _ => true
  | Some _, None => false
  | Some x, Some y => bool_decide (x < y)
  end.

(** [list.sort(key=...)] is a stable sort that compares keys with [<] only.
    Its result is the one of insertion from the right, where an element goes
    in front of the first one that is not below it. *)
Fixpoint sort_insert (p : PluginClass) (l : list PluginClass) : list PluginClass :=
  match l with
  | [] => [p]
  | q :: l' =>
      if order_lt (order q) (order p) then q :: sort_insert p l'
      else p :: q :: l'
  end.

Fixpoint sort (plugins : list PluginClass) : list PluginClass :=
  match plugins with
  | [] => []
  | p :: l => sort_insert p (sort l)
  end.

(** ** Discovery *)

Definition pattern_keys : list string :=
  ["validators"; "extractors"; "selectors"; "integrators"; "collectors"; "conformers"].

Definition patterns (env : Env) (type_ : string) : string :=
  config env (type_ +:+ "_regex").

Definition types (type_ : string) : Class :=
  if bool_decide (type_ = "validators") then Validator
  else if bool_decide (type_ = "extractors") then Extractor
  else if bool_decide (type_ = "selectors") then Selector
  else if bool_decide (type_ = "integrators") then Conformer
  else if bool_decide (type_ = "collectors") then Selector
  else Conformer.

(** [for name in dir(module): ...] *)
Definition scan_module (module : list (string * PluginClass))
    (discovered : gmap string PluginClass) : gmap string PluginClass :=
  foldl (fun d '(name_, obj) =>
           if String.prefix "_" name_ then d
           else if negb (isclass obj) then d
           else if negb (issubclass obj Plugin) then d
           else <[__name__ obj := obj]> d)
        discovered module.

(** The body of [for fname in os.listdir(path)]. *)
Definition scan_file (env : Env) (types_to_check : list string) (path : string)
    (discovered : gmap string PluginClass) (fname : string)
    : M (gmap string PluginClass) :=
  let abspath := path_join env path fname in
  if negb (existsb (fun type_ => re_match env (patterns env type_) fname) types_to_check)
  then mret discovered
  else if negb (isfile env abspath) then mret discovered
  else
    let mod_name := splitext env fname in
    match import_module env path mod_name with
    | Raise err =>
        if isinstance_Exception err
        then log_emit "WARNING" "Skipped: %s (%s)" [mod_name; exn_type err];;
             mret discovered
        else raise err
    | Return module => mret (scan_module module discovered)
    end.

(** The body of [for path in paths or plugin_paths()]. *)
Definition scan_path (env : Env) (types_to_check : list string)
    (discovered : gmap string PluginClass) (path : string)
    : M (gmap string PluginClass) :=
  let path := normpath env path in
  if negb (isdir env path) then mret discovered
  else for_each (listdir env path) discovered (scan_file env types_to_check path).

(** The body of [for name, plugin in discovered_plugins.items()]. *)
Definition filter_plugin (env : Env) (types_to_check : list string)
    (regex : option string) (plugins : list PluginClass)
    (item : string * PluginClass) : M (list PluginClass) :=
  let '(name_, plugin_) := item in
  valid ← plugin_is_valid plugin_;
  if negb valid then mret plugins
  else
    compatible ← version_is_compatible env plugin_;
    if negb compatible
    then log_emit "WARNING"
           "Plug-in %s not compatible with this version (%s) of Pyblish."
           [__name__ plugin_; __version__ env];;
         mret plugins
    else
      host_ok ← host_is_compatible env plugin_;
      if negb host_ok then mret plugins
      else if plugin_in plugin_ plugins
      then log_emit "DEBUG" "Duplicate plugin found: %s" [__name__ plugin_];;
           mret plugins
      else if negb (existsb (fun type_ => issubclass plugin_ (types type_)) types_to_check)
      then mret plugins
      else
        match regex with
        | None => mret (plugins ++ [plugin_])
        | Some r => if re_match env r name_ then mret (plugins ++ [plugin_])
                    else mret plugins
        end.

Definition discover (env : Env) (type_ : option string) (regex : option string)
    (paths : option (list string)) : M (list PluginClass) :=
  match type_ with
  | Some t =>
      if bool_decide (t ∈ pattern_keys) then mret ()
      else raise (ValueError ("Type not recognised: " +:+ t))
  | None => mret ()
  end;;
  (* Include plug-ins from registration *)
  w ← get_world;
  let discovered_plugins := _registered_plugins w in
  (* Include plug-ins from registered paths *)
  let types_to_check :=
    match type_ with Some t => [t] | None => pattern_keys end in
  search ← match paths with
           | Some (p :: ps) => mret (p :: ps)
           | _ => plugin_paths env
           end;
  discovered_plugins ← for_each search discovered_plugins (scan_path env types_to_check);
  (* Filter discovered *)
  plugins ← for_each (map_to_list discovered_plugins) []
                     (filter_plugin env types_to_check regex);
  mret (sort plugins).

(** ** Predicates of the statements, and sample objects *)

Definition heap_two : Heap :=
  mkHeap ∅
    (<[1%positive := mkInstance "rig" None (mkEntity [2%positive] ∅)]>
       (<[2%positive := mkInstance "rig" (Some (RContext 1%positive))
                          (mkEntity [] (<["family" := DVal (VStr "model")]> ∅))]> ∅)).

Definition heap_shot : Heap :=
  mkHeap (<[1%positive := mkEntity [1%positive] ∅]> ∅)
         (<[1%positive := mkInstance "shot010" (Some (RContext 1%positive)) empty_entity]> ∅).

Definition world0 : World := mkWorld ∅ [] ∅ (mkHeap ∅ ∅) [] ∅ [] 0.

Definition validator_without_hosts : PluginClass :=
  mkPlugin 7 "ValidateNaming" true true [Validator; Plugin]
           [] ["*"] (0, 0, 0) (Some 1) false (VStr "pyblish>=1") []
           (Return ()) (mkCallable 0 ["self"; "instance"] (fun _ h => (Return VNone, h, [])))
           (mkCallable 1 ["self"] (fun _ h => (Return VNone, h, []))).

Definition legacy_unavailable {A} (_ : PluginClass) (_ : loc) (_ : option loc) : M A :=
  raise (TypeError "legacy plug-ins are not part of this environment").

(** An environment with nothing on disk, running under [exe]. *)
Definition bare_env (exe : string) : Env :=
  mkEnv exe (fun _ => true) "1.0.15" (fun k => Z.of_nat k)
        (fun _ => "") [] [] (fun p => p) (fun p f => p +:+ "/" +:+ f) (fun f => f)
        (fun _ => false) (fun _ => false) (fun _ => []) (fun _ _ => false)
        (fun _ _ => Return []) legacy_unavailable legacy_unavailable.

Definition wildcard_selector : PluginClass :=
  mkPlugin 3 "Collect" true true [Selector; Plugin]
           ["*"] ["*"] (0, 0, 0) (Some 0) false (VStr "pyblish>=1") []
           (Return ()) (mkCallable 0 ["self"; "context"] (fun _ h => (Return VNone, h, [])))
           (mkCallable 1 ["self"] (fun _ h => (Return VNone, h, []))).

Definition order_le (a b : option Z) : bool := negb (order_lt b a).

Definition by_order (p q : PluginClass) : Prop := order_le (order p) (order q) = true.

Definition unordered (i : nat) (n : string) : PluginClass :=
  mkPlugin i n true true [Plugin]
           ["*"] ["*"] (0, 0, 0) None false (VStr "pyblish>=1") []
           (Return ()) (mkCallable 0 ["self"] (fun _ h => (Return VNone, h, [])))
           (mkCallable 1 ["self"] (fun _ h => (Return VNone, h, []))).

(** A callable that asks for the context and answers with what it was
    given. *)
Definition echo_context : Callable :=
  mkCallable 5 ["self"; "context"]
             (fun kw h => (Return (default VNone (kw !! "context")), h, [])).

Definition asks_for_user : Callable :=
  mkCallable 6 ["self"; "context"; "user"]
             (fun kw h => (Return (default VNone (kw !! "context")), h, [])).

Definition provider_for (context : loc) (instance_ : option loc) : Provider.t :=
  Provider.inject (Provider.inject Provider.__init__ "context" (VContext context))
                  "instance" (opt_instance instance_).

Definition broken_constructor : PluginClass :=
  mkPlugin 11 "ExtractBroken" true true [Extractor; Plugin]
           ["*"] ["*"] (0, 0, 0) (Some 2) false (VStr "pyblish>=1") []
           (Raise (TypeError "__init__() takes exactly 2 arguments (1 given)"))
           (mkCallable 0 ["self"; "context"] (fun _ h => (Return VNone, h, [])))
           (mkCallable 1 ["self"] (fun _ h => (Return VNone, h, []))).

Definition world_ctx : World :=
  mkWorld ∅ [] ∅ (mkHeap (<[1%positive := empty_entity]> ∅) ∅) [] ∅ [] 0.

Definition raises_boom : PluginClass :=
  mkPlugin 12 "ValidateBoom" true true [Validator; Plugin]
           ["*"] ["*"] (0, 0, 0) (Some 1) false (VStr "pyblish>=1") []
           (Return ())
           (mkCallable 0 ["self"; "context"]
              (fun _ h => (Raise (Exn "RuntimeError" ExceptionDerived (VStr "boom")
                                      "validate_boom.py" None),
                           h, [Log "INFO" "about to fail" []])))
           (mkCallable 1 ["self"] (fun _ h => (Return VNone, h, []))).

Definition plain_plugin : PluginClass :=
  mkPlugin 20 "Publish" true true [Plugin]
           ["*"] ["*"] (0, 0, 0) None false (VStr "pyblish>=1") []
           (Return ()) (mkCallable 0 ["self"; "context"] (fun _ h => (Return VNone, h, [])))
           (mkCallable 1 ["self"] (fun _ h => (Return VNone, h, []))).

(** The scenario of two plug-ins registered directly. *)
Definition check_naming : PluginClass :=
  mkPlugin 4 "CheckNaming" true true [Validator; Plugin]
           ["*"] ["*"] (0, 0, 0) (Some 1) false (VStr "pyblish>=1") []
           (Return ()) (mkCallable 0 ["self"; "instance"] (fun _ h => (Return VNone, h, [])))
           (mkCallable 1 ["self"] (fun _ h => (Return VNone, h, []))).

(** What a computation leaves of the registry. *)
Definition same_registry (w w' : World) : Prop :=
  _registered_plugins w' = _registered_plugins w
  ∧ _registered_paths w' = _registered_paths w.

(** The modules on the search paths hold no object named like [p] and not
    [p] itself, and a module that fails to import fails with an
    [Exception]. *)
Definition quiet_imports (env : Env) (p : PluginClass) : Prop :=
  ∀ dir m,
    match import_module env dir m with
    | Return module =>
        ∀ n q, (n, q) ∈ module → __name__ q ≠ __name__ p ∧ oid q ≠ oid p
    | Raise e => isinstance_Exception e = true
    end.

(** [p] is under no other name than its own. *)
Definition others_differ (p : PluginClass) (d : gmap string PluginClass) : Prop :=
  ∀ k q, d !! k = Some q → k ≠ __name__ p → oid q ≠ oid p.

Definition scan_keeps (p : PluginClass) (d d' : gmap string PluginClass) : Prop :=
  d' !! __name__ p = d !! __name__ p ∧ (others_differ p d → others_differ p d').

(** An environment with one directory of plug-ins, [/plugins], that holds a
    file [validate_naming.py] defining a class [CheckNaming] and a private
    name, and a file that matches no pattern. *)
Definition naming_from_disk : PluginClass :=
  mkPlugin 40 "CheckNaming" true true [Validator; Plugin]
           ["*"] ["*"] (0, 0, 0) (Some 1) false (VStr "pyblish>=1") []
           (Return ()) (mkCallable 0 ["self"; "instance"] (fun _ h => (Return VNone, h, [])))
           (mkCallable 1 ["self"] (fun _ h => (Return VNone, h, []))).

Definition disk_env : Env :=
  mkEnv "mayapy" (fun _ => true) "1.0.15" (fun k => Z.of_nat k)
        (fun key => if bool_decide (key = "validators_regex") then "validate_" else "-")
        [] [] (fun p => p) (fun p f => p +:+ "/" +:+ f)
        (fun f => String.substring 0 (String.length f - 3) f)
        (fun p => bool_decide (p = "/plugins"))
        (fun p => bool_decide (p = "/plugins/validate_naming.py"))
        (fun p => if bool_decide (p = "/plugins")
                  then ["README"; "validate_naming.py"] else [])
        (fun pat f => String.prefix pat f)
        (fun dir m => if bool_decide (m = "validate_naming")
                      then Return [("CheckNaming", naming_from_disk);
                                   ("_helper", naming_from_disk)]
                      else Raise (Exn "ImportError" ExceptionDerived
                                      (VStr "No module named that") "lib.py" None))
        legacy_unavailable legacy_unavailable.

(** ** Further definitions: the rest of the entity model *)

Definition AssertionError : exn :=
  Exn "AssertionError" ExceptionDerived VNone "pyblish/plugin.py" None.

(** [el is other or el == other]: the test that [in], [index] and so
    [add] and [remove] apply to a member [el]. *)
Definition member_eq (h : Heap) (el other : loc) : bool :=
  bool_decide (el = other) || Instance.__eq__ h el (VInstance other).

(** No two places of a member list hold equal members. *)
Definition no_equal_members (h : Heap) (l : list loc) : Prop :=
  ∀ i j x y, l !! i = Some x → l !! j = Some y → member_eq h x y = true → i = j.

(** An entity that [set_entity] can write to: a context, or an instance
    that the heap holds. *)
Definition entity_live (h : Heap) (self : eref) : Prop :=
  match self with
  | RContext _ => True
  | RInstance l => is_Some (instances h !! l)
  end.

Module InstanceParent.

(** The loop of the [context] property, from a value of [parent]:
    [while parent:] stops at [None] and at an entity without members;
    [parent.parent] of a context raises, which the bare [except] turns into
    [break]; the [assert] accepts a context only.  [fuel] bounds the number
    of instances passed; [None] means that it ran out. *)
Fixpoint climb (fuel : nat) (h : Heap) (parent_ : option eref)
  : option (outcome loc) :=
  match parent_ with
  | None => Some (Raise AssertionError)
  | Some (RContext c) => Some (Return c)
  | Some (RInstance i) =>
      match members (get_entity h (RInstance i)) with
      | [] => Some (Raise AssertionError)
      | _ :: _ =>
          match fuel with
          | O => None
          | S fuel' => climb fuel' h (instances h !! i ≫= parent)
          end
      end
  end.

(** [Instance.context]: the top-level parent. *)
Definition context (fuel : nat) (h : Heap) (self : loc) : option (outcome loc) :=
  climb fuel h (instances h !! self ≫= parent).

End InstanceParent.

Definition heap_nested : Heap :=
  mkHeap (<[1%positive := mkEntity [1%positive] ∅]> ∅)
         (<[1%positive := mkInstance "char" (Some (RContext 1%positive))
                            (mkEntity [2%positive] ∅)]>
            (<[2%positive := mkInstance "rig" (Some (RInstance 1%positive)) empty_entity]>
               (<[3%positive := mkInstance "leaf" (Some (RInstance 2%positive)) empty_entity]> ∅))).

(** ** Further definitions: the end of a run *)

(** What [_process] and [_repair] do after the [try] statement, from the
    second reading of the clock on. *)
Definition finish_run (env : Env) (handler : nat) (__start : Z) (context : loc)
    (result : Result) : M Result :=
  __end ← time env;
  records_ ← handler_records handler;
  let result := mkResult (success result) (plugin result) (instance result)
                         (error result) (records result ++ records_) (duration result) in
  removeHandler handler;;
  let result := mkResult (success result) (plugin result) (instance result)
                         (error result) (records result)
                         (Some ((__end - __start) * 1000)) in
  append_result context result;;
  mret result.

(** The state in which the method of a plug-in is invoked: the results
    entry is there, the handler is attached, the clock was read once. *)
Definition at_invoke (c : loc) (w : World) : World :=
  set_ticks S (set_handlers (insert (fresh (dom (root_handlers w))) [])
                            (set_heap (ensure_results c) w)).

(** The services of the provider that [_process] and [_repair] build. *)
Definition engine_services (c : loc) (i : option loc) (w : World) : gmap string val :=
  <["instance" := opt_instance i]> (<["context" := VContext c]> ∅)
  ∪ _registered_services w.

Definition repairs_ok : PluginClass :=
  mkPlugin 13 "ValidateFixable" true true [Validator; Plugin]
           ["*"] ["*"] (0, 0, 0) (Some 1) false (VStr "pyblish>=1") []
           (Return ())
           (mkCallable 0 ["self"; "instance"; "user"] (fun _ h => (Return VNone, h, [])))
           (mkCallable 1 ["self"; "context"]
              (fun _ h => (Return VNone, h, [Log "INFO" "repaired" []]))).

Definition interrupted : PluginClass :=
  mkPlugin 14 "ExtractSlow" true true [Extractor; Plugin]
           ["*"] ["*"] (0, 0, 0) (Some 2) false (VStr "pyblish>=1") []
           (Return ())
           (mkCallable 0 ["self"; "context"]
              (fun _ h => (Raise (Exn "KeyboardInterrupt" BaseExceptionOnly VNone
                                      "extract_slow.py" None), h, [])))
           (mkCallable 1 ["self"] (fun _ h => (Return VNone, h, []))).

Definition drops_results : PluginClass :=
  mkPlugin 15 "CollectReset" true true [Selector; Plugin]
           ["*"] ["*"] (0, 0, 0) (Some 0) false (VStr "pyblish>=1") []
           (Return ())
           (mkCallable 0 ["self"; "context"]
              (fun kw h =>
                 match kw !! "context" with
                 | Some (VContext c) =>
                     (Return VNone, (AbstractEntity.remove_data (RContext c) "results" h).2, [])
                 | _ => (Return VNone, h, [])
                 end))
           (mkCallable 1 ["self"] (fun _ h => (Return VNone, h, []))).

(** ** Further definitions: what discovery does to the state *)

(** A computation that does nothing to the state but add records to the
    log. *)
Definition log_only {A} (m : M A) : Prop :=
  ∀ w, ∃ l, (m w).2 = set_log (fun x => x ++ l) w.

(** The stages that [discover] looks for. *)
Definition types_to_check_of (type_ : option string) : list string :=
  match type_ with Some t => [t] | None => pattern_keys end.

(** The checks of the filter loop that do not depend on the list so far. *)
Definition passes_checks (env : Env) (type_ : option string) (q : PluginClass) : Prop :=
  (∀ w, (plugin_is_valid q w).1 = Return true)
  ∧ iscompatible env (requires q) = true
  ∧ (∀ w, (host_is_compatible env q w).1 = Return true)
  ∧ ∃ t, t ∈ types_to_check_of type_ ∧ issubclass q (types t) = true.

(** Every import that fails, fails with an [Exception]. *)
Definition import_failures_caught (env : Env) : Prop :=
  ∀ dir m e, import_module env dir m = Raise e → isinstance_Exception e = true.

(** * Properties *)

(** ** Instance equality and membership *)

Lemma str_eq_true s v : str_eq s v = true ↔ v = VStr s.
Proof.
  destruct v; simpl; try (split; [discriminate | congruence]).
  rewrite bool_decide_eq_true. split; congruence.
Qed.

Lemma getattr_name_instance h l o :
  instances h !! l = Some o → getattr_name h (VInstance l) = VStr (name o).
Proof. intros Hl. simpl. by rewrite Hl. Qed.

Lemma getattr_name_absent h o :
  hasattr_name h o = false → getattr_name h o = VNone.
Proof.
  destruct o; simpl; try done.
  - rewrite bool_decide_eq_false. intros Hn.
    destruct (instances h !! l) eqn:E; [|done]. exfalso. apply Hn. eauto.
  - rewrite bool_decide_eq_false. intros Hn.
    destruct (assoc "name" attrs) eqn:E; [|done]. exfalso. apply Hn. eauto.
Qed.

Lemma Instance_eq_names h la lb a b :
  instances h !! la = Some a → instances h !! lb = Some b →
  (Instance.__eq__ h la (VInstance lb) = true ↔ name a = name b).
Proof.
  intros Ha Hb. unfold Instance.__eq__. rewrite Ha.
  rewrite (getattr_name_instance _ _ _ Hb), str_eq_true.
  split; congruence.
Qed.

(** C8: two instances are equal exactly when their names are, whatever
    their members, parent and data; and an instance is not equal to an
    object that has no [name] attribute. *)
Theorem Instance_eq_by_name (h : Heap) (la : loc) (a : InstanceObj) :
  instances h !! la = Some a →
  (∀ lb b, instances h !! lb = Some b →
           (Instance.__eq__ h la (VInstance lb) = true ↔ name a = name b))
  ∧ (∀ o, hasattr_name h o = false → Instance.__eq__ h la o = false).
Proof.
  intros Ha. split.
  - intros lb b Hb. by apply Instance_eq_names.
  - intros o Ho. unfold Instance.__eq__. rewrite Ha.
    by rewrite (getattr_name_absent _ _ Ho).
Qed.

Lemma Instance_eq_by_name_witness :
  Instance.__eq__ heap_two 1%positive (VInstance 2%positive) = true
  ∧ Instance.__eq__ heap_two 1%positive (VObject [("label", VStr "rig")]) = false.
Proof.
  destruct (Instance_eq_by_name heap_two 1%positive
              (mkInstance "rig" None (mkEntity [2%positive] ∅)) eq_refl) as [H1 H2].
  split.
  - apply (H1 2%positive (mkInstance "rig" (Some (RContext 1%positive))
                            (mkEntity [] (<["family" := DVal (VStr "model")]> ∅)))).
    + reflexivity.
    + reflexivity.
  - apply H2. reflexivity.
Defined.

(** A member named like [other] makes [other in self] true. *)
Lemma contains_same_name h self other l a b :
  l ∈ members (get_entity h self) →
  instances h !! l = Some a → instances h !! other = Some b →
  name a = name b →
  AbstractEntity.__contains__ h self other = true.
Proof.
  intros Hl Ha Hb Hn. unfold AbstractEntity.__contains__.
  apply existsb_exists. exists l. split; [by apply list_elem_of_In|].
  apply orb_true_iff. right.
  by apply (Instance_eq_names h l other a b).
Qed.

(** C10: in a context that holds an instance named [n], [create_instance n]
    builds a new instance with parent the context, and the context, its
    member list included, stays as it was. *)
Theorem create_instance_existing_name (h : Heap) (c : loc) (ctx : Entity)
    (l : loc) (inst : InstanceObj) (n : string) :
  contexts h !! c = Some ctx →
  l ∈ members ctx →
  instances h !! l = Some inst →
  name inst = n →
  ∃ i h',
    Context.create_instance c n h = (i, h')
    ∧ instances h !! i = None
    ∧ instances h' = <[i := mkInstance n (Some (RContext c)) empty_entity]> (instances h)
    ∧ contexts h' = contexts h
    ∧ members (get_entity h' (RContext c)) = members ctx.
Proof.
  intros Hc Hl Hi Hn.
  set (i := fresh (dom (instances h))).
  assert (Hfresh : instances h !! i = None).
  { apply not_elem_of_dom. apply is_fresh. }
  set (h1 := mkHeap (contexts h)
               (<[i := mkInstance n (Some (RContext c)) empty_entity]> (instances h))).
  assert (Hin : AbstractEntity.__contains__ h1 (RContext c) i = true).
  { apply (contains_same_name h1 (RContext c) i l inst
             (mkInstance n (Some (RContext c)) empty_entity)).
    - simpl. by rewrite Hc.
    - simpl. rewrite lookup_insert_ne; [done|]. intros ->. congruence.
    - simpl. by rewrite lookup_insert_eq.
    - done. }
  exists i, h1. repeat split; try done.
  - unfold Context.create_instance, InstanceObject.__init__.
    fold i. fold h1. unfold AbstractEntity.add. by rewrite Hin.
  - simpl. by rewrite Hc.
Qed.

Lemma create_instance_existing_name_witness :
  ∃ i h',
    Context.create_instance 1%positive "shot010" heap_shot = (i, h')
    ∧ instances heap_shot !! i = None
    ∧ instances h' = <[i := mkInstance "shot010" (Some (RContext 1%positive)) empty_entity]>
                       (instances heap_shot)
    ∧ contexts h' = contexts heap_shot
    ∧ members (get_entity h' (RContext 1%positive)) = [1%positive].
Proof.
  apply (create_instance_existing_name heap_shot 1%positive
           (mkEntity [1%positive] ∅) 1%positive
           (mkInstance "shot010" (Some (RContext 1%positive)) empty_entity) "shot010").
  - reflexivity.
  - apply list_elem_of_here.
  - reflexivity.
  - reflexivity.
Defined.

(** When no member has the name, the new instance becomes the last member. *)
Example create_instance_new_name :
  members (get_entity (Context.create_instance 1%positive "shot020" heap_shot).2
                      (RContext 1%positive))
  = [1%positive; 2%positive].
Proof. vm_compute. reflexivity. Qed.

(** ** Search paths *)

Lemma count_absent (path : string) (l : list string) :
  path ∉ l → filter (fun x => x = path) l = [].
Proof.
  induction l as [|x l IH]; intros Hn; [done|].
  rewrite filter_cons. apply not_elem_of_cons in Hn as [Hne Hn].
  rewrite decide_False by congruence. by apply IH.
Qed.

Lemma NoDup_count_le (path : string) (l : list string) :
  NoDup l → (length (filter (fun x => x = path) l) ≤ 1)%nat.
Proof.
  induction 1 as [|x l Hx Hnd IH]; simpl; [lia|].
  rewrite filter_cons. case_decide as Heq; simpl; [|done].
  subst x. rewrite count_absent by done. simpl. lia.
Qed.

Lemma count_present (path : string) (l : list string) :
  path ∈ l → (1 ≤ length (filter (fun x => x = path) l))%nat.
Proof.
  induction 1 as [x l|x y l _ IH].
  - rewrite filter_cons. rewrite decide_True by done. simpl. lia.
  - rewrite filter_cons. case_decide; simpl; lia.
Qed.

(** C7: registering a path twice leaves one entry for it; the second call
    returns [None], logs a warning and changes nothing else. *)
Theorem register_plugin_path_twice (path : string) (w : World) :
  NoDup (_registered_paths w) →
  ∃ r w1,
    register_plugin_path path w = (Return r, w1)
    ∧ register_plugin_path path w1
      = (Return None,
         set_log (fun l => l ++ [Log "WARNING" "Path already registered: {0}" [path]]) w1)
    ∧ length (filter (fun x => x = path) (_registered_paths w1)) = 1%nat
    ∧ NoDup (_registered_paths w1).
Proof.
  intros Hnd. unfold register_plugin_path at 1.
  unfold mbind, M_bind, get_world. simpl.
  case_bool_decide as Hin.
  - eexists _, _. split; [reflexivity|]. simpl.
    split; [|split].
    + unfold register_plugin_path, mbind, M_bind, get_world. simpl.
      rewrite bool_decide_eq_true_2 by done. reflexivity.
    + pose proof (NoDup_count_le path _ Hnd). pose proof (count_present path _ Hin). lia.
    + done.
  - eexists _, _. split; [reflexivity|]. simpl.
    assert (Hin' : path ∈ _registered_paths w ++ [path]) by set_solver.
    assert (Hnd' : NoDup (_registered_paths w ++ [path])).
    { apply NoDup_app. split; [done|]. split; [|apply NoDup_singleton].
      intros x Hx Hx'. apply list_elem_of_singleton in Hx'. by subst. }
    split; [|split].
    + unfold register_plugin_path, mbind, M_bind, get_world. simpl.
      rewrite bool_decide_eq_true_2 by done. reflexivity.
    + pose proof (NoDup_count_le path _ Hnd'). pose proof (count_present path _ Hin'). lia.
    + done.
Qed.

Lemma register_plugin_path_twice_witness :
  ∃ r w1,
    register_plugin_path "/server/plugins" world0 = (Return r, w1)
    ∧ register_plugin_path "/server/plugins" w1
      = (Return None,
         set_log (fun l => l ++ [Log "WARNING" "Path already registered: {0}"
                                     ["/server/plugins"]]) w1)
    ∧ length (filter (fun x => x = "/server/plugins") (_registered_paths w1)) = 1%nat
    ∧ NoDup (_registered_paths w1).
Proof.
  apply (register_plugin_path_twice "/server/plugins" world0).
  simpl. apply NoDup_nil_2.
Defined.

(** The path list has no duplicates as long as it is changed through the
    registry's functions only. *)
Lemma list_remove_subset x l l' :
  list_remove x l = Some l' → NoDup l → NoDup l'.
Proof.
  revert l'. induction l as [|y l IH]; intros l' Hr Hnd; simpl in Hr; [done|].
  apply NoDup_cons in Hnd as [Hy Hnd].
  case_bool_decide; simplify_eq; [done|].
  destruct (list_remove x l) as [l2|] eqn:E; simplify_eq/=.
  apply NoDup_cons. split; [|by apply IH].
  intros Hin. apply Hy. clear -E Hin. revert l2 E Hin.
  induction l as [|z l IH]; intros l2 E Hin; simpl in E; [done|].
  case_bool_decide; simplify_eq; [by right|].
  destruct (list_remove x l) as [l3|] eqn:E'; simplify_eq/=.
  apply elem_of_cons in Hin as [->|Hin]; [by left|right; by eapply IH].
Qed.

Lemma deregister_plugin_path_NoDup path w :
  NoDup (_registered_paths w) → NoDup (_registered_paths (deregister_plugin_path path w).2).
Proof.
  intros Hnd. unfold deregister_plugin_path, mbind, M_bind, get_world. simpl.
  destruct (list_remove path (_registered_paths w)) eqn:E; simpl; [|done].
  by eapply list_remove_subset.
Qed.

Lemma deregister_all_paths_NoDup w :
  NoDup (_registered_paths (deregister_all_paths w).2).
Proof. simpl. apply NoDup_nil_2. Qed.

(** ** Validity *)

(** A validator with no hosts and some families is a class, derives from
    [Plugin], has a string for [requires], and is found valid. *)
Lemma plugin_is_valid_validator_without_hosts :
  isclass validator_without_hosts = true
  ∧ issubclass validator_without_hosts Plugin = true
  ∧ isinstance_basestring (requires validator_without_hosts) = true
  ∧ issubclass validator_without_hosts Validator = true
  ∧ hosts validator_without_hosts = []
  ∧ plugin_is_valid validator_without_hosts world0 = (Return true, world0).
Proof. vm_compute. repeat split. Qed.

Lemma check_roles_both_empty p :
  (issubclass p Validator || issubclass p Extractor) = true →
  hosts p = [] → families p = [] →
  ∃ e, check_roles p = Raise e.
Proof.
  intros Hr Hh Hf. unfold check_roles. rewrite Hr, Hh, Hf.
  destruct (issubclass p Selector); simpl; eauto.
Qed.

Lemma check_roles_pure_validator p :
  issubclass p Selector = false → issubclass p Conformer = false →
  (hosts p ≠ [] ∨ families p ≠ []) →
  check_roles p = Return ().
Proof.
  intros Hs Hc Hne. unfold check_roles. rewrite Hs, Hc. simpl.
  destruct Hne as [Hne|Hne].
  - rewrite (bool_decide_eq_true_2 (hosts p ≠ [])) by done. simpl.
    by rewrite andb_false_r.
  - rewrite (bool_decide_eq_true_2 (families p ≠ [])) by done. simpl.
    by rewrite andb_false_r.
Qed.

(** C2, as the code has it: a Validator or Extractor class with [hosts] and
    [families] both empty is not valid; when one of the two is nonempty and
    the class is of no other role, it is valid. *)
Theorem plugin_is_valid_validator_extractor (p : PluginClass) (w : World) :
  isclass p = true →
  issubclass p Plugin = true →
  isinstance_basestring (requires p) = true →
  (issubclass p Validator || issubclass p Extractor) = true →
  (hosts p = [] → families p = [] → (plugin_is_valid p w).1 = Return false)
  ∧ (issubclass p Selector = false → issubclass p Conformer = false →
     (hosts p ≠ [] ∨ families p ≠ []) → plugin_is_valid p w = (Return true, w)).
Proof.
  intros Hc Hs Hr Hrole. unfold plugin_is_valid. rewrite Hc, Hs, Hr. simpl. split.
  - intros Hh Hf. destruct (check_roles_both_empty p Hrole Hh Hf) as [e ->].
    unfold mbind, M_bind.
    repeat (match goal with
            | |- context [if ?b then _ else _] => destruct b
            end; simpl); reflexivity.
  - intros Hsel Hcon Hne. by rewrite check_roles_pure_validator.
Qed.

Lemma plugin_is_valid_validator_extractor_witness :
  plugin_is_valid validator_without_hosts world0 = (Return true, world0).
Proof.
  apply (plugin_is_valid_validator_extractor validator_without_hosts world0);
    try reflexivity.
  right. discriminate.
Defined.

(** ** Host compatibility *)

(** Under an executable that host detection does not know, the check of a
    plug-in raises the detection's error instead of returning false, even
    for a plug-in of every host. *)
Lemma host_is_compatible_unknown_host_raises :
  ∃ e, current_host (bare_env "blender") = Raise e
       ∧ host_is_compatible (bare_env "blender") wildcard_selector world0
         = (Raise e, world0)
       ∧ (host_is_compatible (bare_env "blender") wildcard_selector world0).1
         ≠ Return false.
Proof. eexists. vm_compute. repeat split. discriminate. Qed.

(** C3, as the code has it: once the host is detected, the check is true
    exactly when ["*"] or the host is among the plug-in's hosts; when
    detection raises, the check raises the same error. *)
Theorem host_is_compatible_spec (env : Env) (p : PluginClass) (w : World) :
  match current_host env with
  | Return host =>
      host_is_compatible env p w
      = (Return (bool_decide ("*" ∈ hosts p ∨ host ∈ hosts p)), w)
  | Raise e => host_is_compatible env p w = (Raise e, w)
  end.
Proof.
  unfold host_is_compatible. destruct (current_host env) as [host|e]; [|done].
  unfold mret, M_ret. f_equal. f_equal.
  apply eq_bool_prop_intro. rewrite orb_True, !bool_decide_spec. done.
Qed.

(** Detection raises exactly when the executable's name holds none of the
    five known host names. *)
Lemma current_host_raises env :
  (∃ e, current_host env = Raise e) ↔
  str_in "python" (executable env) = false ∧ str_in "maya" (executable env) = false
  ∧ str_in "nuke" (executable env) = false ∧ str_in "modo" (executable env) = false
  ∧ str_in "houdini" (executable env) = false.
Proof.
  unfold current_host.
  destruct (str_in "python" _), (str_in "maya" _), (str_in "nuke" _),
    (str_in "modo" _), (str_in "houdini" _); split;
    try (intros [e He]; discriminate); try (intros (?&?&?&?&?); discriminate).
  - done.
  - eauto.
Qed.

(** ** Ordering *)

Lemma order_lt_irrefl a : order_lt a a = false.
Proof. destruct a; simpl; [|done]. apply bool_decide_eq_false. lia. Qed.

Lemma order_le_trans a b c : order_le a b = true → order_le b c = true → order_le a c = true.
Proof.
  unfold order_le. destruct a, b, c; simpl; try done.
  rewrite !negb_true_iff, !bool_decide_eq_false. lia.
Qed.

Lemma order_le_total a b : order_le a b = true ∨ order_le b a = true.
Proof.
  unfold order_le. destruct a, b; simpl; auto.
  rewrite !negb_true_iff, !bool_decide_eq_false. lia.
Qed.

Lemma order_lt_le a b : order_lt a b = true → order_le a b = true.
Proof.
  unfold order_le. destruct a, b; simpl; try done.
  rewrite negb_true_iff, bool_decide_eq_true, bool_decide_eq_false. lia.
Qed.

Lemma order_lt_neq a b : order_lt a b = true → a ≠ b.
Proof. intros H ->. by rewrite order_lt_irrefl in H. Qed.

Lemma sort_insert_Forall (P : PluginClass → Prop) p l :
  P p → Forall P l → Forall P (sort_insert p l).
Proof.
  intros Hp. induction 1 as [|q l Hq Hl IH]; simpl.
  - by constructor.
  - destruct (order_lt (order q) (order p)); repeat constructor; done.
Qed.

Lemma sort_insert_sorted p l :
  StronglySorted by_order l → StronglySorted by_order (sort_insert p l).
Proof.
  induction 1 as [|q l Hs IH Hq]; simpl.
  - repeat constructor.
  - destruct (order_lt (order q) (order p)) eqn:E.
    + constructor; [done|]. apply sort_insert_Forall; [|done].
      by apply order_lt_le.
    + assert (Hpq : by_order p q).
      { unfold by_order, order_le. by rewrite E. }
      constructor; [by constructor|]. constructor; [done|].
      eapply Forall_impl; [exact Hq|]. intros r Hr.
      unfold by_order in *. by eapply order_le_trans.
Qed.

Lemma sort_insert_filter (k : option Z) p l :
  filter (fun q => order q = k) (sort_insert p l)
  = filter (fun q => order q = k) (p :: l).
Proof.
  induction l as [|q l IH]; simpl; [done|].
  destruct (order_lt (order q) (order p)) eqn:E; [|done].
  rewrite filter_cons, IH, !filter_cons.
  destruct (decide (order q = k)) as [Hq|Hq]; [|done].
  destruct (decide (order p = k)) as [Hp|Hp]; [|done].
  apply order_lt_neq in E. congruence.
Qed.

Lemma sort_insert_perm p l : sort_insert p l ≡ₚ p :: l.
Proof.
  induction l as [|q l IH]; simpl; [done|].
  destruct (order_lt (order q) (order p)); [|done].
  rewrite IH. apply Permutation_swap.
Qed.

Lemma sort_perm l : sort l ≡ₚ l.
Proof.
  induction l as [|p l IH]; simpl; [done|].
  by rewrite sort_insert_perm, IH.
Qed.

(** [order_le] on set orders is [≤]; an unset order is below every order,
    itself included, and no number is below it. *)
Lemma order_le_spec a b :
  order_le a b = true ↔
  match a, b with
  | None, _ => True
  | Some _, None => False
  | Some x, Some y => x ≤ y
  end.
Proof.
  unfold order_le. destruct a, b; simpl; try done.
  rewrite negb_true_iff, bool_decide_eq_false. lia.
Qed.

Lemma StronglySorted_weaken {A} (R S : A → A → Prop) (l : list A) :
  (∀ x y, R x y → S x y) → StronglySorted R l → StronglySorted S l.
Proof.
  intros HRS. induction 1 as [|x l Hl IH Hx]; constructor; [done|].
  eapply Forall_impl; [exact Hx|]. auto.
Qed.

(** C5: the sorted list is non-decreasing in [order], with an unset order
    below every number and equal to itself; the plug-ins of any one order
    value stand in the order they had in the input; the list has the same
    plug-ins; two plug-ins of unset order are sorted to themselves.  [sort]
    is a total function: no comparison fails. *)
Theorem sort_sorted_stable (plugins : list PluginClass) :
  StronglySorted (fun p q => match order p, order q with
                             | None, _ => True
                             | Some _, None => False
                             | Some x, Some y => x ≤ y
                             end) (sort plugins)
  ∧ (∀ k, filter (fun q => order q = k) (sort plugins)
          = filter (fun q => order q = k) plugins)
  ∧ sort plugins ≡ₚ plugins
  ∧ (∀ p q, order p = None → order q = None → sort [p; q] = [p; q]).
Proof.
  split; [|split; [|split]].
  - assert (Hs : StronglySorted by_order (sort plugins)).
    { induction plugins as [|p l IH]; simpl; [constructor|].
      by apply sort_insert_sorted. }
    eapply StronglySorted_weaken; [|exact Hs].
    intros p q. unfold by_order. by rewrite order_le_spec.
  - intros k. induction plugins as [|p l IH]; simpl; [done|].
    by rewrite sort_insert_filter, !filter_cons, IH.
  - apply sort_perm.
  - intros p q Hp Hq. simpl. by rewrite Hp, Hq.
Qed.

(** Two plug-ins with no order keep their places, in front of those that
    have one. *)
Example sort_unset_orders :
  __name__ <$> sort [wildcard_selector; unordered 1 "A"; validator_without_hosts; unordered 2 "B"]
  = ["A"; "B"; "Collect"; "ValidateNaming"].
Proof. vm_compute. reflexivity. Qed.

(** ** Dependency injection *)

Lemma args_spec func a :
  a ∈ Provider.args func ↔ a ∈ argspec func ∧ a ≠ "self" ∧ a ≠ "cls".
Proof.
  unfold Provider.args. rewrite list_elem_of_filter, !not_elem_of_cons.
  split.
  - intros [(Hs & Hc & _) Ha]. done.
  - intros (Ha & Hs & Hc). repeat split; try done. apply not_elem_of_nil.
Qed.

Lemma all_available (s : gmap string val) (l : list string) :
  forallb (fun arg => bool_decide (arg ∈ dom s)) l = true
  ↔ ∀ a, a ∈ l → is_Some (s !! a).
Proof.
  rewrite forallb_forall. split.
  - intros H a Ha. apply elem_of_dom. apply list_elem_of_In in Ha.
    specialize (H a Ha). by apply bool_decide_eq_true in H.
  - intros H a Ha. apply bool_decide_eq_true, elem_of_dom, H.
    by apply list_elem_of_In.
Qed.

Lemma invoke_unavailable self func w :
  (∃ a, a ∈ Provider.args func
        ∧ (Provider._services self ∪ _registered_services w) !! a = None) →
  Provider.invoke self func w
  = (Raise (KeyError "Unavailable service requested."), w).
Proof.
  intros (a & Ha & Hnone).
  unfold Provider.invoke, Provider.services, mbind, M_bind, get_world. simpl.
  destruct (forallb _ (Provider.args func)) eqn:E; [|done].
  apply all_available with (a := a) in E; [|done].
  rewrite Hnone in E. by destruct E.
Qed.

Lemma invoke_available self func w :
  (∀ a, a ∈ Provider.args func
        → is_Some ((Provider._services self ∪ _registered_services w) !! a)) →
  Provider.invoke self func w
  = call func (filter (fun kv => kv.1 ∈ Provider.args func)
                      (Provider._services self ∪ _registered_services w)) w.
Proof.
  intros Hall.
  unfold Provider.invoke, Provider.services, mbind, M_bind, get_world. simpl.
  apply all_available in Hall. by rewrite Hall.
Qed.

(** C4: with [available] the registered services overridden by the
    provider's own, and the requested names those of the signature other
    than [self] and [cls]: when a requested name is not available, [invoke]
    raises [KeyError] and leaves the state, the list of calls included, as
    it was; otherwise it makes one call of [func], with the available
    services of the requested names as keyword arguments, and ends as that
    call does. *)
Theorem invoke_spec (self : Provider.t) (func : Callable) (w : World) :
  let available := Provider._services self ∪ _registered_services w in
  let requested a := a ∈ argspec func ∧ a ≠ "self" ∧ a ≠ "cls" in
  ((∃ a, requested a ∧ available !! a = None) →
     Provider.invoke self func w
     = (Raise (KeyError "Unavailable service requested."), w))
  ∧ ((∀ a, requested a → is_Some (available !! a)) →
     ∃ inject : gmap string val,
       (∀ k v, inject !! k = Some v ↔ requested k ∧ available !! k = Some v)
       ∧ (Provider.invoke self func w).1 = (func_body func inject (heap w)).1.1
       ∧ heap (Provider.invoke self func w).2 = (func_body func inject (heap w)).1.2
       ∧ calls (Provider.invoke self func w).2 = calls w ++ [(func_id func, inject)]).
Proof.
  intros available requested. split.
  - intros (a & Ha & Hnone). apply invoke_unavailable.
    exists a. split; [by apply args_spec|done].
  - intros Hall.
    exists (filter (fun kv => kv.1 ∈ Provider.args func) available).
    split.
    + intros k v. rewrite map_lookup_filter_Some. simpl.
      rewrite args_spec. unfold requested. tauto.
    + rewrite invoke_available.
      2:{ intros a Ha. apply Hall. by apply args_spec. }
      unfold call. fold available.
      destruct (func_body func _ (heap w)) as [[r h'] recs]. done.
Qed.

Example invoke_echo_context :
  (Provider.invoke (provider_for 1%positive None) echo_context world0).1
  = Return (VContext 1%positive)
  ∧ calls (Provider.invoke (provider_for 1%positive None) echo_context world0).2
    = [(5%nat, {["context" := VContext 1%positive]})].
Proof. split; vm_compute; reflexivity. Qed.

Example invoke_asks_for_user :
  Provider.invoke (provider_for 1%positive None) asks_for_user world0
  = (Raise (KeyError "Unavailable service requested."), world0).
Proof. vm_compute. reflexivity. Qed.

(** ** The execution engine *)

Lemma ensure_results_lookup c h :
  _data (get_entity (ensure_results c h) (RContext c)) !! "results"
  = Some (default (DResults []) (_data (get_entity h (RContext c)) !! "results")).
Proof.
  unfold ensure_results, AbstractEntity.data_copy. case_bool_decide as Hin.
  - apply elem_of_dom in Hin as [x Hx]. by rewrite Hx.
  - apply not_elem_of_dom in Hin. rewrite Hin. simpl.
    rewrite lookup_insert_eq. simpl. by rewrite lookup_insert_eq.
Qed.

(** C9: when the constructor of a plug-in without legacy methods raises,
    [process] raises the same exception.  The state it leaves differs from
    the one it found in the ["results"] entry of the context only, which is
    the list it was, or the empty list if there was none: nothing is
    appended, and no call is made. *)
Theorem process_constructor_raises (env : Env) (p : PluginClass) (c : loc)
    (i : option loc) (w : World) (e : exn) :
  hasattr p "process_instance" = false →
  hasattr p "process_context" = false →
  __init__ p = Raise e →
  process env p c i w = (Raise e, set_heap (ensure_results c) w)
  ∧ _data (get_entity (ensure_results c (heap w)) (RContext c)) !! "results"
    = Some (default (DResults []) (_data (get_entity (heap w) (RContext c)) !! "results"))
  ∧ calls (process env p c i w).2 = calls w.
Proof.
  intros H1 H2 Hinit.
  assert (Hp : process env p c i w = (Raise e, set_heap (ensure_results c) w)).
  { unfold process. rewrite H1, H2. simpl.
    unfold _process, run_method, mbind, M_bind, modify. simpl.
    by rewrite Hinit. }
  split; [done|]. split; [apply ensure_results_lookup|].
  by rewrite Hp.
Qed.

Lemma process_constructor_raises_witness :
  process (bare_env "python") broken_constructor 1%positive None world_ctx
  = (Raise (TypeError "__init__() takes exactly 2 arguments (1 given)"),
     set_heap (ensure_results 1%positive) world_ctx)
  ∧ _data (get_entity (ensure_results 1%positive (heap world_ctx)) (RContext 1%positive))
      !! "results"
    = Some (default (DResults [])
              (_data (get_entity (heap world_ctx) (RContext 1%positive)) !! "results"))
  ∧ calls (process (bare_env "python") broken_constructor 1%positive None world_ctx).2
    = calls world_ctx.
Proof.
  apply (process_constructor_raises (bare_env "python") broken_constructor
           1%positive None world_ctx).
  - reflexivity.
  - reflexivity.
  - reflexivity.
Defined.

(** Reading a field of a state after some fields were set. *)
Ltac world_simpl :=
  cbn [heap root_handlers ticks calls log _registered_plugins _registered_paths
       _registered_services set_handlers set_ticks set_calls set_heap set_log
       set_plugins set_paths set_services].

Lemma extract_traceback_same_failure e :
  exn_type (extract_traceback e) = exn_type e
  ∧ message (extract_traceback e) = message e
  ∧ traceback (extract_traceback e) = Some (exc_info_tb e).
Proof. done. Qed.

Lemma handler_roundtrip (m : gmap nat (list LogRecord)) (recs : list LogRecord) :
  ((fun l => l ++ recs) <$> <[fresh (dom m) := []]> m) !! fresh (dom m) = Some recs.
Proof. by rewrite lookup_fmap, lookup_insert_eq. Qed.



(** A second failing run adds a second result. *)
Example process_twice_two_results :
  let w1 := (process (bare_env "python") raises_boom 1%positive None world_ctx).2 in
  let w2 := (process (bare_env "python") raises_boom 1%positive None w1).2 in
  match AbstractEntity.data (heap w2) (RContext 1%positive) "results" (DVal VNone) with
  | DResults l => success <$> l
  | DVal _ => []
  end = [false; false].
Proof. vm_compute. reflexivity. Qed.

(** ** Registration and discovery *)


Example discover_collect_check_naming :
  let w := (register_plugin wildcard_selector
              (register_plugin check_naming world0).2).2 in
  __name__ <$> default [] (match (discover (bare_env "python") None None None w).1 with
                           | Return l => Some l | Raise _ => None end)
  = ["Collect"; "CheckNaming"].
Proof. vm_compute. reflexivity. Qed.

Lemma same_registry_refl w : same_registry w w.
Proof. done. Qed.

Lemma same_registry_trans w1 w2 w3 :
  same_registry w1 w2 → same_registry w2 w3 → same_registry w1 w3.
Proof. intros [? ?] [? ?]. split; congruence. Qed.

Lemma same_registry_log f w : same_registry w (set_log f w).
Proof. done. Qed.

Create HintDb registry.
Local Hint Resolve same_registry_refl same_registry_log : registry.

Lemma plugin_is_valid_run p w :
  ∃ b w', plugin_is_valid p w = (Return b, w') ∧ same_registry w w'
          ∧ ∀ w2, (plugin_is_valid p w2).1 = Return b.
Proof.
  unfold plugin_is_valid.
  destruct (isclass p); simpl; [|eexists _, _; eauto with registry].
  destruct (issubclass p Plugin); simpl; [|eexists _, _; eauto with registry].
  destruct (isinstance_basestring (requires p)); simpl;
    [|eexists _, _; split; [reflexivity|]; eauto with registry].
  destruct (check_roles p) as [[]|e]; [eexists _, _; eauto with registry|].
  destruct (val_is_int (message e) 0), (val_is_int (message e) 1),
    (val_is_int (message e) 2);
    (eexists _, _; split; [reflexivity|]; split; [done|done]).
Qed.

Lemma version_is_compatible_run env p w :
  version_is_compatible env p w = (Return (iscompatible env (requires p)), w).
Proof. unfold version_is_compatible. by destruct (iscompatible env (requires p)). Qed.

Lemma host_is_compatible_run env p w host :
  current_host env = Return host →
  host_is_compatible env p w
  = (Return (bool_decide ("*" ∈ hosts p) || bool_decide (host ∈ hosts p)), w).
Proof. intros H. unfold host_is_compatible. by rewrite H. Qed.

Lemma host_is_compatible_detected env p w :
  (host_is_compatible env p w).1 = Return true →
  ∃ host, current_host env = Return host
          ∧ bool_decide ("*" ∈ hosts p) || bool_decide (host ∈ hosts p) = true.
Proof.
  unfold host_is_compatible. destruct (current_host env) as [host|e]; [|done].
  simpl. intros [= H]. eauto.
Qed.

Lemma plugin_in_false p l :
  plugin_in p l = false ↔ ∀ q, q ∈ l → oid q ≠ oid p.
Proof.
  unfold plugin_in. induction l as [|x l IH]; simpl.
  - split; [intros _ q Hq; by apply not_elem_of_nil in Hq|done].
  - rewrite orb_false_iff, IH, bool_decide_eq_false. split.
    + intros [Hx Hl] q Hq. apply elem_of_cons in Hq as [->|Hq]; auto.
    + intros H. split; [apply H; left|intros q Hq; apply H; by right].
Qed.

Lemma types_checked p :
  existsb (fun type_ => issubclass p (types type_)) pattern_keys
  = issubclass p Validator || (issubclass p Extractor || (issubclass p Selector
    || (issubclass p Conformer || (issubclass p Selector
    || (issubclass p Conformer || false))))).
Proof. reflexivity. Qed.

Lemma staged_checked p :
  issubclass p Selector || issubclass p Validator
  || issubclass p Extractor || issubclass p Conformer = true →
  existsb (fun type_ => issubclass p (types type_)) pattern_keys = true.
Proof.
  rewrite types_checked.
  destruct (issubclass p Selector), (issubclass p Validator),
    (issubclass p Extractor), (issubclass p Conformer); done.
Qed.

Lemma for_each_cons {A B} (x : A) (l : list A) (acc : B) (f : B → A → M B) w :
  for_each (x :: l) acc f w
  = match f acc x w with
    | (Return acc', w') => for_each l acc' f w'
    | (Raise e, w') => (Raise e, w')
    end.
Proof. reflexivity. Qed.

(** One step of the filter loop adds the plug-in or leaves the list. *)
Lemma filter_plugin_run env host ttc acc k q w :
  current_host env = Return host →
  ∃ acc' w', filter_plugin env ttc None acc (k, q) w = (Return acc', w')
             ∧ same_registry w w' ∧ (acc' = acc ∨ acc' = acc ++ [q]).
Proof.
  intros Hhost. unfold filter_plugin, mbind, M_bind.
  destruct (plugin_is_valid_run q w) as (b & w1 & -> & Hr1 & _).
  destruct b; simpl; [|eexists _, _; eauto].
  rewrite version_is_compatible_run.
  destruct (iscompatible env (requires q)); simpl;
    [|eexists _, _; split; [reflexivity|]; split; [|by left];
      eapply same_registry_trans; [exact Hr1|apply same_registry_log]].
  rewrite (host_is_compatible_run _ _ _ _ Hhost).
  destruct (_ || _); simpl; [|eexists _, _; eauto].
  destruct (plugin_in q acc); simpl;
    [eexists _, _; split; [reflexivity|]; split; [|by left];
      eapply same_registry_trans; [exact Hr1|apply same_registry_log]|].
  destruct (existsb _ ttc); simpl; eexists _, _; eauto.
Qed.

(** A plug-in that passes the checks and is not in the list yet is added. *)
Lemma filter_plugin_pass env acc k p w :
  (∀ w2, (plugin_is_valid p w2).1 = Return true) →
  iscompatible env (requires p) = true →
  (∀ w2, (host_is_compatible env p w2).1 = Return true) →
  existsb (fun type_ => issubclass p (types type_)) pattern_keys = true →
  plugin_in p acc = false →
  ∃ w', filter_plugin env pattern_keys None acc (k, p) w = (Return (acc ++ [p]), w').
Proof.
  intros Hv Hc Hh Ht Hin. unfold filter_plugin, mbind, M_bind.
  specialize (Hv w). destruct (plugin_is_valid p w) as [[b|e] w1]; simplify_eq/=.
  rewrite version_is_compatible_run, Hc. simpl.
  specialize (Hh w1). destruct (host_is_compatible env p w1) as [[b|e] w2]; simplify_eq/=.
  rewrite Hin, Ht. simpl. eauto.
Qed.

Lemma filter_loop_run env host ttc its :
  current_host env = Return host →
  ∀ acc w,
    ∃ acc' w', for_each its acc (filter_plugin env ttc None) w = (Return acc', w')
               ∧ same_registry w w'
               ∧ (∀ q, q ∈ acc → q ∈ acc')
               ∧ (∀ q, q ∈ acc' → q ∈ acc ∨ ∃ k, (k, q) ∈ its).
Proof.
  intros Hhost. induction its as [|[k q] its IH]; intros acc w.
  - eexists _, _. split; [reflexivity|]. repeat split; auto.
  - rewrite for_each_cons.
    destruct (filter_plugin_run env host ttc acc k q w Hhost)
      as (acc1 & w1 & -> & Hr1 & Hacc1).
    destruct (IH acc1 w1) as (acc' & w' & -> & Hr & Hsub & Hfrom).
    eexists _, _. split; [reflexivity|].
    split; [by eapply same_registry_trans|]. split.
    + intros x Hx. apply Hsub. destruct Hacc1 as [->| ->]; [done|].
      apply elem_of_app. by left.
    + intros x Hx. apply Hfrom in Hx as [Hx|[k' Hx]].
      * destruct Hacc1 as [->| ->]; [by left|].
        apply elem_of_app in Hx as [Hx|Hx]; [by left|].
        apply list_elem_of_singleton in Hx as ->. right. exists k. left.
      * right. exists k'. by right.
Qed.

Lemma filter_loop_keeps env host p its :
  current_host env = Return host →
  (∀ w2, (plugin_is_valid p w2).1 = Return true) →
  iscompatible env (requires p) = true →
  (∀ w2, (host_is_compatible env p w2).1 = Return true) →
  existsb (fun type_ => issubclass p (types type_)) pattern_keys = true →
  (∃ k, (k, p) ∈ its) →
  (∀ k q, (k, q) ∈ its → q = p ∨ oid q ≠ oid p) →
  ∀ acc w,
    plugin_in p acc = false →
    ∃ acc' w', for_each its acc (filter_plugin env pattern_keys None) w = (Return acc', w')
               ∧ p ∈ acc'.
Proof.
  intros Hhost Hv Hc Hh Ht. induction its as [|[k q] its IH];
    intros [k0 Hk0] Hits acc w Hacc.
  - by apply not_elem_of_nil in Hk0.
  - rewrite for_each_cons.
    destruct (Hits k q) as [->|Hq]; [left|..].
    + destruct (filter_plugin_pass env acc k p w Hv Hc Hh Ht Hacc) as (w1 & ->).
      destruct (filter_loop_run env host pattern_keys its Hhost (acc ++ [p]) w1)
        as (acc' & w' & -> & _ & Hsub & _).
      eexists _, _. split; [reflexivity|]. apply Hsub, elem_of_app. right. left.
    + destruct (filter_plugin_run env host pattern_keys acc k q w Hhost)
        as (acc1 & w1 & -> & _ & Hacc1).
      apply IH.
      * apply elem_of_cons in Hk0 as [[= -> ->]|Hk0]; [done|eauto].
      * intros k' q' Hq'. apply (Hits k'). by right.
      * destruct Hacc1 as [->| ->]; [done|].
        apply plugin_in_false. intros x Hx.
        apply elem_of_app in Hx as [Hx|Hx].
        -- by eapply plugin_in_false in Hacc.
        -- by apply list_elem_of_singleton in Hx as ->.
Qed.

Lemma scan_keeps_refl p d : scan_keeps p d d.
Proof. done. Qed.

Lemma scan_keeps_trans p d1 d2 d3 :
  scan_keeps p d1 d2 → scan_keeps p d2 d3 → scan_keeps p d1 d3.
Proof. intros [H1 H2] [H3 H4]. split; [congruence|auto]. Qed.

Lemma scan_keeps_insert p q d :
  __name__ q ≠ __name__ p → oid q ≠ oid p → scan_keeps p d (<[__name__ q := q]> d).
Proof.
  intros Hn Ho. split; [by rewrite lookup_insert_ne|].
  intros Hd k x Hx Hk. destruct (decide (k = __name__ q)) as [->|Hne].
  - rewrite lookup_insert_eq in Hx. by simplify_eq.
  - rewrite lookup_insert_ne in Hx by done. by eapply Hd.
Qed.

Lemma scan_module_keeps p module d :
  (∀ n q, (n, q) ∈ module → __name__ q ≠ __name__ p ∧ oid q ≠ oid p) →
  scan_keeps p d (scan_module module d).
Proof.
  unfold scan_module. revert d.
  induction module as [|[n q] module IH]; intros d Hm; [apply scan_keeps_refl|].
  simpl. eapply scan_keeps_trans; [|apply IH; intros n' q' H'; apply (Hm n'); by right].
  destruct (Hm n q) as [Hn Ho]; [left|].
  destruct (String.prefix "_" n); [apply scan_keeps_refl|].
  destruct (isclass q); simpl; [|apply scan_keeps_refl].
  destruct (issubclass q Plugin); simpl; [|apply scan_keeps_refl].
  by apply scan_keeps_insert.
Qed.

Lemma scan_file_run env p ttc path d fname w :
  quiet_imports env p →
  ∃ d' w', scan_file env ttc path d fname w = (Return d', w')
           ∧ scan_keeps p d d' ∧ same_registry w w'.
Proof.
  intros Hq. unfold scan_file.
  destruct (existsb _ ttc); simpl;
    [|eexists _, _; split; [reflexivity|]; split; [apply scan_keeps_refl|done]].
  destruct (isfile env _); simpl;
    [|eexists _, _; split; [reflexivity|]; split; [apply scan_keeps_refl|done]].
  specialize (Hq path (splitext env fname)).
  destruct (import_module env path (splitext env fname)) as [module|err].
  - eexists _, _. split; [reflexivity|]. split; [by apply scan_module_keeps|done].
  - rewrite Hq. eexists _, _. split; [reflexivity|].
    split; [apply scan_keeps_refl|done].
Qed.

Lemma scan_loop_run p (f : gmap string PluginClass → string → M (gmap string PluginClass)) l :
  (∀ d x w, ∃ d' w', f d x w = (Return d', w') ∧ scan_keeps p d d' ∧ same_registry w w') →
  ∀ d w, ∃ d' w', for_each l d f w = (Return d', w')
                  ∧ scan_keeps p d d' ∧ same_registry w w'.
Proof.
  intros Hf. induction l as [|x l IH]; intros d w.
  - eexists _, _. split; [reflexivity|]. split; [apply scan_keeps_refl|done].
  - rewrite for_each_cons. destruct (Hf d x w) as (d1 & w1 & -> & Hk1 & Hr1).
    destruct (IH d1 w1) as (d' & w' & -> & Hk & Hr).
    eexists _, _. split; [reflexivity|].
    split; [by eapply scan_keeps_trans|by eapply same_registry_trans].
Qed.

Lemma scan_path_run env p ttc d path w :
  quiet_imports env p →
  ∃ d' w', scan_path env ttc d path w = (Return d', w')
           ∧ scan_keeps p d d' ∧ same_registry w w'.
Proof.
  intros Hq. unfold scan_path. destruct (isdir env _); simpl.
  - apply scan_loop_run. intros d0 x w0. by apply scan_file_run.
  - eexists _, _. split; [reflexivity|]. split; [apply scan_keeps_refl|done].
Qed.

(** [discover()] with no arguments: the scan of the search paths, then the
    filter loop, then the sort. *)
Lemma discover_unfold (env : Env) (w : World) :
  ∃ search : list string,
    discover env None None None w
    = match for_each search (_registered_plugins w) (scan_path env pattern_keys) w with
      | (Return d, w1) =>
          match for_each (map_to_list d) [] (filter_plugin env pattern_keys None) w1 with
          | (Return ps, w2) => (Return (sort ps), w2)
          | (Raise e, w2) => (Raise e, w2)
          end
      | (Raise e, w1) => (Raise e, w1)
      end.
Proof.
  exists (foldl (fun paths path =>
                   if bool_decide (path ∈ paths) then paths else paths ++ [path])
                [] (_registered_paths w ++ config_paths env ++ env_paths env)).
  reflexivity.
Qed.

Lemma discover_run env p host w :
  current_host env = Return host →
  quiet_imports env p →
  ∃ d ps w1 w',
    discover env None None None w = (Return (sort ps), w')
    ∧ scan_keeps p (_registered_plugins w) d
    ∧ for_each (map_to_list d) [] (filter_plugin env pattern_keys None) w1 = (Return ps, w')
    ∧ same_registry w w'
    ∧ (∀ q, q ∈ ps → ∃ k, d !! k = Some q).
Proof.
  intros Hhost Hq. destruct (discover_unfold env w) as [search ->].
  destruct (scan_loop_run p (scan_path env pattern_keys) search
              (fun d x w0 => scan_path_run env p pattern_keys d x w0 Hq)
              (_registered_plugins w) w) as (d & w1 & -> & Hk & Hr1).
  destruct (filter_loop_run env host pattern_keys (map_to_list d) Hhost [] w1)
    as (ps & w' & Hloop & Hr & _ & Hfrom).
  rewrite Hloop. exists d, ps, w1, w'.
  split; [done|]. split; [done|]. split; [done|].
  split; [by eapply same_registry_trans|].
  intros q Hqin. apply Hfrom in Hqin as [Hqin|[k Hqin]].
  - by apply not_elem_of_nil in Hqin.
  - exists k. by apply elem_of_map_to_list.
Qed.



(** Discovery from a directory: the file that matches a pattern is imported
    and its public class is returned; the import is logged nowhere. *)
Example discover_from_disk :
  let w := (register_plugin_path "/plugins" world0).2 in
  (oid <$> default [] (match (discover disk_env None None None w).1 with
                       | Return l => Some l | Raise _ => None end)) = [40%nat].
Proof. vm_compute. reflexivity. Qed.

(** A class found on the search paths takes the place of a registered class
    of the same name. *)
Example discover_name_clash :
  let w := (register_plugin check_naming (register_plugin_path "/plugins" world0).2).2 in
  (oid <$> default [] (match (discover disk_env None None None w).1 with
                       | Return l => Some l | Raise _ => None end)) = [40%nat]
  ∧ oid check_naming = 4%nat.
Proof. vm_compute. split; reflexivity. Qed.

(** A stage filter that names no stage is an error of the caller. *)
Example discover_unknown_type :
  (discover disk_env (Some "validator") None None world0).1
  = Raise (ValueError "Type not recognised: validator").
Proof. vm_compute. reflexivity. Qed.

(** * Further properties *)

(** ** Members of an entity *)

Lemma member_eq_unfold h el other :
  (bool_decide (el = other) || Instance.__eq__ h el (VInstance other)) = member_eq h el other.
Proof. done. Qed.

Lemma member_eq_sym h x y : member_eq h x y = true → member_eq h y x = true.
Proof.
  unfold member_eq. rewrite !orb_true_iff, !bool_decide_eq_true.
  intros [->|H]; [by left|right].
  unfold Instance.__eq__ in *.
  destruct (instances h !! x) as [ox|] eqn:Ex; [|done].
  apply str_eq_true in H. simpl in H.
  destruct (instances h !! y) as [oy|] eqn:Ey; simpl in H; [|done].
  simplify_eq. simpl. rewrite Ex. simpl. apply bool_decide_eq_true. congruence.
Qed.

Lemma contains_existsb h self other :
  AbstractEntity.__contains__ h self other
  = existsb (fun el => member_eq h el other) (members (get_entity h self)).
Proof. done. Qed.

Lemma existsb_false {A} (f : A → bool) (l : list A) :
  existsb f l = false ↔ ∀ x, x ∈ l → f x = false.
Proof.
  induction l as [|a l IH]; simpl.
  - split; [intros _ x Hx; by apply not_elem_of_nil in Hx|done].
  - rewrite orb_false_iff, IH. split.
    + intros [Ha Hl] x Hx. apply elem_of_cons in Hx as [->|Hx]; auto.
    + intros H. split; [apply H; left|intros x Hx; apply H; by right].
Qed.

Lemma get_set_entity h self e :
  entity_live h self → get_entity (set_entity h self e) self = e.
Proof.
  destruct self as [c|i]; simpl.
  - intros _. by rewrite lookup_insert_eq.
  - intros [o Ho]. rewrite lookup_alter_eq, Ho. done.
Qed.

Lemma set_entity_names h self e l :
  name <$> instances (set_entity h self e) !! l = name <$> instances h !! l.
Proof.
  destruct self as [c|i]; simpl; [done|].
  destruct (decide (i = l)) as [->|Hne].
  - rewrite lookup_alter_eq. by destruct (instances h !! l).
  - by rewrite lookup_alter_ne.
Qed.

Lemma member_eq_set_entity h self e x y :
  member_eq (set_entity h self e) x y = member_eq h x y.
Proof.
  unfold member_eq, Instance.__eq__, getattr_name. f_equal.
  pose proof (set_entity_names h self e x) as Hx.
  pose proof (set_entity_names h self e y) as Hy.
  destruct (instances (set_entity h self e) !! x) as [ox'|],
    (instances h !! x) as [ox|]; simplify_eq/=; [|done].
  rewrite Hx. f_equal.
  destruct (instances (set_entity h self e) !! y) as [oy'|],
    (instances h !! y) as [oy|]; simplify_eq/=; [|done].
  by rewrite Hy.
Qed.

(** X1: after [add], [other in self] holds, and a second [add] of the same
    object changes nothing. *)
Theorem add_then_contains (h : Heap) (self : eref) (other : loc) :
  entity_live h self →
  AbstractEntity.__contains__ (AbstractEntity.add self other h) self other = true
  ∧ AbstractEntity.add self other (AbstractEntity.add self other h)
    = AbstractEntity.add self other h.
Proof.
  intros Hlive.
  assert (Hc : AbstractEntity.__contains__ (AbstractEntity.add self other h) self other = true).
  { unfold AbstractEntity.add.
    destruct (AbstractEntity.__contains__ h self other) eqn:E; [done|].
    rewrite contains_existsb, get_set_entity by done. simpl.
    rewrite existsb_app. simpl. unfold member_eq at 2.
    rewrite bool_decide_eq_true_2 by done. simpl. by rewrite orb_true_r. }
  split; [done|].
  unfold AbstractEntity.add at 1. by rewrite Hc.
Qed.

Lemma add_then_contains_witness :
  AbstractEntity.__contains__
    (AbstractEntity.add (RInstance 1%positive) 3%positive heap_nested)
    (RInstance 1%positive) 3%positive = true
  ∧ AbstractEntity.add (RInstance 1%positive) 3%positive
      (AbstractEntity.add (RInstance 1%positive) 3%positive heap_nested)
    = AbstractEntity.add (RInstance 1%positive) 3%positive heap_nested.
Proof.
  apply (add_then_contains heap_nested (RInstance 1%positive) 3%positive).
  simpl. vm_compute. eauto.
Defined.

(** X2: [add] keeps a member list free of equal members: if no two places
    hold the same object or two instances of one name, this is so after
    [add] as well. *)
Theorem add_keeps_members_distinct (h : Heap) (self : eref) (other : loc) :
  entity_live h self →
  no_equal_members h (members (get_entity h self)) →
  no_equal_members (AbstractEntity.add self other h)
                   (members (get_entity (AbstractEntity.add self other h) self)).
Proof.
  intros Hlive Hinv. unfold AbstractEntity.add.
  destruct (AbstractEntity.__contains__ h self other) eqn:E; [done|].
  rewrite get_set_entity by done. simpl.
  rewrite contains_existsb in E.
  pose proof (proj1 (existsb_false _ _) E) as Hno.
  intros i j x y Hi Hj Heq. rewrite member_eq_set_entity in Heq.
  apply lookup_app_Some in Hi as [Hi|[Hil Hi]];
    apply lookup_app_Some in Hj as [Hj|[Hjl Hj]].
  - by eapply Hinv.
  - apply list_lookup_singleton_Some in Hj as [Hj0 <-].
    rewrite Hno in Heq; [done|]. by eapply list_elem_of_lookup_2.
  - apply list_lookup_singleton_Some in Hi as [Hi0 <-].
    apply member_eq_sym in Heq.
    rewrite Hno in Heq; [done|]. by eapply list_elem_of_lookup_2.
  - apply list_lookup_singleton_Some in Hi as [Hi0 _].
    apply list_lookup_singleton_Some in Hj as [Hj0 _]. lia.
Qed.

Lemma add_keeps_members_distinct_witness :
  no_equal_members
    (AbstractEntity.add (RContext 1%positive) 3%positive heap_nested)
    (members (get_entity (AbstractEntity.add (RContext 1%positive) 3%positive heap_nested)
                         (RContext 1%positive))).
Proof.
  apply (add_keeps_members_distinct heap_nested (RContext 1%positive) 3%positive).
  - exact I.
  - intros i j x y Hi Hj _. change (members _) with [1%positive] in Hi, Hj.
    apply list_lookup_singleton_Some in Hi as [-> _].
    apply list_lookup_singleton_Some in Hj as [-> _]. reflexivity.
Defined.

Lemma index_Some h l other i :
  AbstractEntity.index h l other = Some i →
  ∃ el, l !! i = Some el ∧ member_eq h el other = true
        ∧ ∀ j el', (j < i)%nat → l !! j = Some el' → member_eq h el' other = false.
Proof.
  revert i. induction l as [|x l IH]; intros i; simpl; [done|].
  rewrite member_eq_unfold. destruct (member_eq h x other) eqn:E.
  - intros [= <-]. exists x. split; [done|]. split; [done|]. intros j el' Hj. lia.
  - destruct (AbstractEntity.index h l other) as [i'|] eqn:Ei; simpl; [|done].
    intros [= <-]. destruct (IH i' eq_refl) as (el & Hel & Heq & Hbefore).
    exists el. split; [done|]. split; [done|].
    intros [|j] el' Hj Hl; simpl in Hl; [by simplify_eq|].
    eapply Hbefore; [|done]. lia.
Qed.

Lemma index_None h l other :
  AbstractEntity.index h l other = None ↔
  existsb (fun el => member_eq h el other) l = false.
Proof.
  induction l as [|x l IH]; simpl; [done|].
  rewrite member_eq_unfold. destruct (member_eq h x other); simpl; [done|].
  rewrite <- IH. destruct (AbstractEntity.index h l other); simpl; split; done.
Qed.

(** X3: [remove] takes out the first member that is [other] or an instance
    of the same name, and returns that member; when there is none, it raises
    [ValueError] and changes nothing. *)
Theorem remove_first_equal (h : Heap) (self : eref) (other : loc) :
  entity_live h self →
  match AbstractEntity.remove self other h with
  | (Return el, h') =>
      ∃ i, members (get_entity h self) !! i = Some el
           ∧ member_eq h el other = true
           ∧ (∀ j el', (j < i)%nat → members (get_entity h self) !! j = Some el'
                       → member_eq h el' other = false)
           ∧ get_entity h' self
             = mkEntity (delete i (members (get_entity h self)))
                        (_data (get_entity h self))
  | (Raise e, h') =>
      e = ValueError "x not in list" ∧ h' = h
      ∧ AbstractEntity.__contains__ h self other = false
  end.
Proof.
  intros Hlive. unfold AbstractEntity.remove.
  destruct (AbstractEntity.index h (members (get_entity h self)) other) as [i|] eqn:E.
  - destruct (index_Some _ _ _ _ E) as (el & Hel & Heq & Hbefore).
    rewrite Hel. exists i. repeat split; try done.
    by rewrite get_set_entity.
  - split; [done|]. split; [done|]. by apply index_None.
Qed.

Lemma remove_first_equal_witness :
  match AbstractEntity.remove (RContext 1%positive) 3%positive heap_nested with
  | (Return el, h') =>
      ∃ i, members (get_entity heap_nested (RContext 1%positive)) !! i = Some el
           ∧ member_eq heap_nested el 3%positive = true
           ∧ (∀ j el', (j < i)%nat
                       → members (get_entity heap_nested (RContext 1%positive)) !! j = Some el'
                       → member_eq heap_nested el' 3%positive = false)
           ∧ get_entity h' (RContext 1%positive)
             = mkEntity (delete i (members (get_entity heap_nested (RContext 1%positive))))
                        (_data (get_entity heap_nested (RContext 1%positive)))
  | (Raise e, h') =>
      e = ValueError "x not in list" ∧ h' = heap_nested
      ∧ AbstractEntity.__contains__ heap_nested (RContext 1%positive) 3%positive = false
  end.
Proof.
  apply (remove_first_equal heap_nested (RContext 1%positive) 3%positive). exact I.
Defined.

Lemma index_app_last h l other :
  (∀ y, y ∈ l → member_eq h y other = false) →
  AbstractEntity.index h (l ++ [other]) other = Some (length l).
Proof.
  induction l as [|x l IH]; intros Hno; simpl.
  - rewrite bool_decide_eq_true_2 by done. done.
  - rewrite member_eq_unfold, Hno by left.
    rewrite IH; [done|]. intros y Hy. apply Hno. by right.
Qed.

(** X4: removing an object right after adding it to an entity that had no
    equal member returns that very object and gives back the member list and
    the data. *)
Theorem add_remove_roundtrip (h : Heap) (self : eref) (other : loc) :
  entity_live h self →
  AbstractEntity.__contains__ h self other = false →
  ∃ h', AbstractEntity.remove self other (AbstractEntity.add self other h)
        = (Return other, h')
        ∧ get_entity h' self = get_entity h self.
Proof.
  intros Hlive Hc. unfold AbstractEntity.add. rewrite Hc.
  set (e := get_entity h self).
  set (h1 := set_entity h self (mkEntity (members e ++ [other]) (_data e))).
  assert (Hlive1 : entity_live h1 self).
  { destruct self as [c|i]; [done|]. simpl in *. destruct Hlive as [o Ho].
    rewrite lookup_alter_eq, Ho. eauto. }
  assert (He1 : get_entity h1 self = mkEntity (members e ++ [other]) (_data e)).
  { by apply get_set_entity. }
  assert (Hidx : AbstractEntity.index h1 (members e ++ [other]) other
                 = Some (length (members e))).
  { apply index_app_last. intros y Hy. unfold h1. rewrite member_eq_set_entity.
    rewrite contains_existsb in Hc. by apply (proj1 (existsb_false _ _) Hc). }
  unfold AbstractEntity.remove. rewrite He1. simpl. rewrite Hidx.
  rewrite lookup_app_r by lia. rewrite Nat.sub_diag. simpl.
  eexists. split; [reflexivity|].
  rewrite get_set_entity by done.
  assert (delete (length (members e)) (members e ++ [other]) = members e) as ->.
  { clear. induction (members e) as [|x l IH]; simpl; [done|]. by rewrite IH. }
  subst e. by destruct (get_entity h self).
Qed.

Lemma add_remove_roundtrip_witness :
  ∃ h', AbstractEntity.remove (RContext 1%positive) 2%positive
          (AbstractEntity.add (RContext 1%positive) 2%positive heap_nested)
        = (Return 2%positive, h')
        ∧ get_entity h' (RContext 1%positive) = get_entity heap_nested (RContext 1%positive).
Proof.
  apply (add_remove_roundtrip heap_nested (RContext 1%positive) 2%positive).
  - exact I.
  - vm_compute. reflexivity.
Defined.

(** X5: in a context whose members are instances of other names,
    [create_instance n] returns a new instance named [n] with the context
    as parent, which becomes the last member of the context. *)
Theorem create_instance_new_member (h : Heap) (c : loc) (n : string) :
  (∀ l, l ∈ members (get_entity h (RContext c)) →
        ∃ o, instances h !! l = Some o ∧ name o ≠ n) →
  ∃ i h',
    Context.create_instance c n h = (i, h')
    ∧ instances h !! i = None
    ∧ instances h' = <[i := mkInstance n (Some (RContext c)) empty_entity]> (instances h)
    ∧ members (get_entity h' (RContext c)) = members (get_entity h (RContext c)) ++ [i]
    ∧ _data (get_entity h' (RContext c)) = _data (get_entity h (RContext c)).
Proof.
  intros Hnames.
  set (i := fresh (dom (instances h))).
  assert (Hfresh : instances h !! i = None).
  { apply not_elem_of_dom. apply is_fresh. }
  set (h1 := mkHeap (contexts h)
               (<[i := mkInstance n (Some (RContext c)) empty_entity]> (instances h))).
  assert (Hc : AbstractEntity.__contains__ h1 (RContext c) i = false).
  { rewrite contains_existsb. apply existsb_false. intros l Hl.
    destruct (Hnames l Hl) as (o & Ho & Hn).
    assert (l ≠ i) by (intros ->; congruence).
    unfold member_eq. rewrite bool_decide_eq_false_2 by done. simpl.
    unfold Instance.__eq__. simpl.
    rewrite lookup_insert_ne, Ho by done. rewrite lookup_insert_eq. simpl.
    apply bool_decide_eq_false. done. }
  exists i, (AbstractEntity.add (RContext c) i h1).
  split; [done|]. split; [done|].
  unfold AbstractEntity.add. rewrite Hc. simpl.
  rewrite lookup_insert_eq. done.
Qed.

Lemma create_instance_new_member_witness :
  ∃ i h',
    Context.create_instance 1%positive "shot020" heap_shot = (i, h')
    ∧ instances heap_shot !! i = None
    ∧ instances h' = <[i := mkInstance "shot020" (Some (RContext 1%positive)) empty_entity]>
                       (instances heap_shot)
    ∧ members (get_entity h' (RContext 1%positive))
      = members (get_entity heap_shot (RContext 1%positive)) ++ [i]
    ∧ _data (get_entity h' (RContext 1%positive))
      = _data (get_entity heap_shot (RContext 1%positive)).
Proof.
  apply (create_instance_new_member heap_shot 1%positive "shot020").
  intros l Hl. change (members _) with [1%positive] in Hl.
  apply list_elem_of_singleton in Hl as ->.
  eexists. split; [reflexivity|]. simpl. discriminate.
Defined.

(** ** The data store *)

(** X6: what [set_data] stores under a key is what [data] reads and
    [has_data] finds; the other keys and the members are as before. *)
Theorem set_data_then_data (h : Heap) (self : eref) (key : string) (value : dval) :
  entity_live h self →
  let h' := AbstractEntity.set_data self key value h in
  (∀ d, AbstractEntity.data h' self key d = value)
  ∧ AbstractEntity.has_data h' self key = true
  ∧ (∀ k d, k ≠ key → AbstractEntity.data h' self k d = AbstractEntity.data h self k d)
  ∧ (∀ k, k ≠ key → AbstractEntity.has_data h' self k = AbstractEntity.has_data h self k)
  ∧ members (get_entity h' self) = members (get_entity h self).
Proof.
  intros Hlive h'. unfold h', AbstractEntity.data, AbstractEntity.has_data,
    AbstractEntity.set_data.
  rewrite get_set_entity by done. simpl. repeat split.
  - intros d. by rewrite lookup_insert_eq.
  - apply bool_decide_eq_true. rewrite lookup_insert_eq. eauto.
  - intros k d Hk. by rewrite lookup_insert_ne.
  - intros k Hk. by rewrite lookup_insert_ne.
Qed.

Lemma set_data_then_data_witness :
  let h' := AbstractEntity.set_data (RInstance 2%positive) "family" (DVal (VStr "rig"))
                                    heap_nested in
  (∀ d, AbstractEntity.data h' (RInstance 2%positive) "family" d = DVal (VStr "rig"))
  ∧ AbstractEntity.has_data h' (RInstance 2%positive) "family" = true
  ∧ (∀ k d, k ≠ "family" → AbstractEntity.data h' (RInstance 2%positive) k d
                           = AbstractEntity.data heap_nested (RInstance 2%positive) k d)
  ∧ (∀ k, k ≠ "family" → AbstractEntity.has_data h' (RInstance 2%positive) k
                         = AbstractEntity.has_data heap_nested (RInstance 2%positive) k)
  ∧ members (get_entity h' (RInstance 2%positive))
    = members (get_entity heap_nested (RInstance 2%positive)).
Proof.
  apply (set_data_then_data heap_nested (RInstance 2%positive) "family" (DVal (VStr "rig"))).
  simpl. vm_compute. eauto.
Defined.

(** X7: [remove_data] of a key that the store does not have raises
    [KeyError] and changes nothing; of a key that it has, it returns, the key
    is gone, and the other keys read as before. *)
Theorem remove_data_spec (h : Heap) (self : eref) (key : string) :
  entity_live h self →
  (AbstractEntity.has_data h self key = false →
     AbstractEntity.remove_data self key h = (Raise (KeyError key), h))
  ∧ (AbstractEntity.has_data h self key = true →
     ∃ h', AbstractEntity.remove_data self key h = (Return (), h')
           ∧ AbstractEntity.has_data h' self key = false
           ∧ (∀ d, AbstractEntity.data h' self key d = d)
           ∧ (∀ k d, k ≠ key →
                AbstractEntity.data h' self k d = AbstractEntity.data h self k d)).
Proof.
  intros Hlive. unfold AbstractEntity.has_data, AbstractEntity.remove_data,
    AbstractEntity.data. split.
  - rewrite bool_decide_eq_false. intros Hno.
    destruct (_data (get_entity h self) !! key) eqn:E; [|done].
    exfalso. apply Hno. eauto.
  - rewrite bool_decide_eq_true. intros [v Hv]. rewrite Hv.
    eexists. split; [reflexivity|]. rewrite get_set_entity by done. simpl.
    split; [|split].
    + apply bool_decide_eq_false. rewrite lookup_delete_eq. by intros [? ?].
    + intros d. by rewrite lookup_delete_eq.
    + intros k d Hk. by rewrite lookup_delete_ne.
Qed.

Lemma remove_data_spec_witness :
  AbstractEntity.remove_data (RContext 1%positive) "results" heap_nested
  = (Raise (KeyError "results"), heap_nested).
Proof.
  apply (remove_data_spec heap_nested (RContext 1%positive) "results").
  - exact I.
  - vm_compute. reflexivity.
Defined.

(** X8: the name of an instance is what [data("name")] reads as long as the
    store has no ["name"] entry; a value other than [None] stored under
    ["name"] is read instead, while the [name] field, and with it equality,
    stays as it was. *)
Theorem Instance_data_name (h : Heap) (self : loc) (o : InstanceObj) (v : val) :
  instances h !! self = Some o →
  (_data (entity o) !! "name" = None →
     InstanceObject.data h self "name" (DVal VNone) = DVal (VStr (name o)))
  ∧ (v ≠ VNone →
     let h' := AbstractEntity.set_data (RInstance self) "name" (DVal v) h in
     InstanceObject.data h' self "name" (DVal VNone) = DVal v
     ∧ name <$> instances h' !! self = Some (name o)
     ∧ ∀ other, Instance.__eq__ h' self (VInstance other)
                = Instance.__eq__ h self (VInstance other)).
Proof.
  intros Hself. split.
  - intros Hno. unfold InstanceObject.data, AbstractEntity.data. simpl.
    rewrite Hself. simpl. rewrite Hno. simpl. done.
  - intros Hv h'. split; [|split].
    + unfold InstanceObject.data, AbstractEntity.data.
      unfold h', AbstractEntity.set_data. rewrite get_set_entity by (simpl; eauto).
      simpl. rewrite lookup_insert_eq. simpl. by destruct v.
    + unfold h', AbstractEntity.set_data. rewrite set_entity_names, Hself. done.
    + intros other. pose proof (member_eq_set_entity h (RInstance self)
        (mkEntity (members (get_entity h (RInstance self)))
                  (<["name" := DVal v]> (_data (get_entity h (RInstance self)))))
        self other) as Heq.
      unfold member_eq in Heq. destruct (bool_decide (self = other)) eqn:E.
      * apply bool_decide_eq_true in E. subst other.
        unfold h', AbstractEntity.set_data, Instance.__eq__, getattr_name. simpl.
        rewrite lookup_alter_eq, Hself. simpl. by rewrite !bool_decide_eq_true_2.
      * simpl in Heq. exact Heq.
Qed.

Lemma Instance_data_name_witness :
  InstanceObject.data heap_nested 2%positive "name" (DVal VNone) = DVal (VStr "rig").
Proof.
  apply (Instance_data_name heap_nested 2%positive
           (mkInstance "rig" (Some (RInstance 1%positive)) empty_entity) (VStr "x")).
  - reflexivity.
  - reflexivity.
Defined.

(** ** The context of an instance *)

(** X9: the [context] of an instance made by [create_instance] is the
    context it was made in, whether or not the instance became a member. *)
Theorem context_of_created_instance (h : Heap) (c : loc) (n : string) (fuel : nat) :
  InstanceParent.context fuel (Context.create_instance c n h).2
                         (Context.create_instance c n h).1
  = Some (Return c).
Proof.
  unfold Context.create_instance, InstanceObject.__init__. simpl.
  unfold InstanceParent.context, AbstractEntity.add.
  destruct (AbstractEntity.__contains__ _ _ _); simpl;
    rewrite lookup_insert_eq; simpl; by destruct fuel.
Qed.

(** X10: an instance without parent has no context: the assertion fails.
    For an instance whose parent is an instance [j], the loop stops at [j]
    when [j] has no members, and the assertion fails even if [j] has a
    context above it; when [j] has members, the context is the one of
    [j]. *)
Theorem context_through_parent (h : Heap) (i : loc) (oi : InstanceObj) :
  instances h !! i = Some oi →
  (parent oi = None →
     ∀ fuel, InstanceParent.context fuel h i = Some (Raise AssertionError))
  ∧ (∀ j oj, parent oi = Some (RInstance j) → instances h !! j = Some oj →
       (members (entity oj) = [] →
          ∀ fuel, InstanceParent.context fuel h i = Some (Raise AssertionError))
       ∧ (members (entity oj) ≠ [] →
          ∀ fuel, InstanceParent.context (S fuel) h i = InstanceParent.context fuel h j)).
Proof.
  intros Hi. unfold InstanceParent.context. rewrite Hi. simpl. split.
  - intros -> fuel. by destruct fuel.
  - intros j oj -> Hj. split.
    + intros Hm fuel. destruct fuel; simpl; by rewrite Hj; simpl; rewrite Hm.
    + intros Hm fuel. simpl. rewrite Hj. simpl.
      destruct (members (entity oj)); done.
Qed.

Lemma context_through_parent_witness :
  InstanceParent.context 1 heap_nested 2%positive = InstanceParent.context 0 heap_nested 1%positive
  ∧ InstanceParent.context 5 heap_nested 3%positive = Some (Raise AssertionError).
Proof.
  split.
  - destruct (context_through_parent heap_nested 2%positive
                (mkInstance "rig" (Some (RInstance 1%positive)) empty_entity) eq_refl)
      as [_ H].
    destruct (H 1%positive
                (mkInstance "char" (Some (RContext 1%positive)) (mkEntity [2%positive] ∅))
                eq_refl eq_refl) as [_ H2].
    apply H2. simpl. discriminate.
  - destruct (context_through_parent heap_nested 3%positive
                (mkInstance "leaf" (Some (RInstance 2%positive)) empty_entity) eq_refl)
      as [_ H].
    destruct (H 2%positive
                (mkInstance "rig" (Some (RInstance 1%positive)) empty_entity)
                eq_refl eq_refl) as [H1 _].
    apply H1. reflexivity.
Defined.

Example context_nested :
  InstanceParent.context 1 heap_nested 2%positive = Some (Return 1%positive)
  ∧ InstanceParent.context 0 heap_nested 2%positive = None.
Proof. split; vm_compute; reflexivity. Qed.

(** ** Equality of instances *)

(** X11: on the instances of a heap, [==] is reflexive, symmetric and
    transitive, and [!=] is its negation, also against objects that are not
    instances. *)
Theorem Instance_eq_equivalence (h : Heap) (a : loc) (oa : InstanceObj) :
  instances h !! a = Some oa →
  Instance.__eq__ h a (VInstance a) = true
  ∧ (∀ b, Instance.__eq__ h a (VInstance b) = true →
          Instance.__eq__ h b (VInstance a) = true)
  ∧ (∀ b c, Instance.__eq__ h a (VInstance b) = true →
            Instance.__eq__ h b (VInstance c) = true →
            Instance.__eq__ h a (VInstance c) = true)
  ∧ (∀ o, Instance.__ne__ h a o = negb (Instance.__eq__ h a o)).
Proof.
  intros Ha. split; [|split; [|split]].
  - by apply (Instance_eq_names h a a oa oa).
  - intros b Hab. unfold Instance.__eq__ in Hab. rewrite Ha in Hab.
    apply str_eq_true in Hab. simpl in Hab.
    destruct (instances h !! b) as [ob|] eqn:Hb; simpl in Hab; [|done].
    apply (Instance_eq_names h b a ob oa); congruence.
  - intros b c Hab Hbc. unfold Instance.__eq__ in Hab, Hbc. rewrite Ha in Hab.
    apply str_eq_true in Hab. simpl in Hab.
    destruct (instances h !! b) as [ob|] eqn:Hb; simpl in Hab; [|done].
    apply str_eq_true in Hbc. simpl in Hbc.
    destruct (instances h !! c) as [oc|] eqn:Hc; simpl in Hbc; [|done].
    apply (Instance_eq_names h a c oa oc); congruence.
  - intros o. unfold Instance.__ne__, Instance.__eq__. by rewrite Ha.
Qed.

Lemma Instance_eq_equivalence_witness :
  Instance.__eq__ heap_two 1%positive (VInstance 1%positive) = true.
Proof.
  destruct (Instance_eq_equivalence heap_two 1%positive
              (mkInstance "rig" None (mkEntity [2%positive] ∅)) eq_refl) as [H _].
  exact H.
Defined.

(** ** Runs of the engine *)

Lemma run_method_unfold env method p c i w :
  __init__ p = Return () →
  run_method env method p c i w
  = match Provider.invoke (provider_for c i) (method p) (at_invoke c w) with
    | (Return _, w3) =>
        finish_run env (fresh (dom (root_handlers w))) (time_at env (ticks w)) c
                   (mkResult true (oid p) i None [] None) w3
    | (Raise e, w3) =>
        if isinstance_Exception e
        then finish_run env (fresh (dom (root_handlers w))) (time_at env (ticks w)) c
                        (mkResult false (oid p) i (Some (extract_traceback e)) [] None) w3
        else (Raise e, w3)
    end.
Proof.
  intros Hinit. unfold run_method.
  unfold mbind at 1. unfold M_bind at 1. unfold modify at 1.
  unfold mbind at 1. unfold M_bind at 1. rewrite Hinit.
  unfold mbind at 1. unfold M_bind at 1. unfold addHandler at 1.
  unfold mbind at 1. unfold M_bind at 1. unfold time at 1.
  unfold mbind at 1. unfold M_bind at 1. unfold try_except at 1.
  unfold mbind at 1. unfold M_bind at 1.
  world_simpl. fold (at_invoke c w).
  change (Provider.inject _ "instance" _) with (provider_for c i).
  destruct (Provider.invoke (provider_for c i) (method p) (at_invoke c w))
    as [[v|e] w3]; [reflexivity|].
  destruct (isinstance_Exception e); reflexivity.
Qed.

Lemma finish_run_appends env handler start c res w3 recs l :
  root_handlers w3 !! handler = Some recs →
  _data (get_entity (heap w3) (RContext c)) !! "results" = Some (DResults l) →
  let r := mkResult (success res) (plugin res) (instance res) (error res)
                    (records res ++ recs)
                    (Some ((time_at env (ticks w3) - start) * 1000)) in
  finish_run env handler start c res w3
  = (Return r,
     set_heap (AbstractEntity.set_data (RContext c) "results" (DResults (l ++ [r])))
              (set_handlers (delete handler) (set_ticks S w3))).
Proof.
  intros Hh Hl r. unfold finish_run.
  unfold mbind at 1. unfold M_bind at 1. unfold time at 1.
  unfold mbind at 1. unfold M_bind at 1. unfold handler_records at 1.
  unfold mbind at 1. unfold M_bind at 1. unfold get_world at 1.
  unfold mret at 1. unfold M_ret at 1.
  world_simpl. rewrite Hh. simpl default.
  unfold mbind at 1. unfold M_bind at 1. unfold removeHandler at 1. unfold modify at 1.
  unfold mbind at 1. unfold M_bind at 1. unfold append_result at 1.
  unfold mbind at 1. unfold M_bind at 1. unfold get_world at 1.
  world_simpl. unfold AbstractEntity.data at 1. rewrite Hl. simpl default.
  reflexivity.
Qed.

Lemma finish_run_no_list env handler start c res w3 recs :
  root_handlers w3 !! handler = Some recs →
  _data (get_entity (heap w3) (RContext c)) !! "results" = None →
  finish_run env handler start c res w3
  = (Raise (AttributeError "object has no attribute 'append'"),
     set_handlers (delete handler) (set_ticks S w3)).
Proof.
  intros Hh Hl. unfold finish_run.
  unfold mbind at 1. unfold M_bind at 1. unfold time at 1.
  unfold mbind at 1. unfold M_bind at 1. unfold handler_records at 1.
  unfold mbind at 1. unfold M_bind at 1. unfold get_world at 1.
  unfold mret at 1. unfold M_ret at 1.
  world_simpl. rewrite Hh. simpl default.
  unfold mbind at 1. unfold M_bind at 1. unfold removeHandler at 1. unfold modify at 1.
  unfold mbind at 1. unfold M_bind at 1. unfold append_result at 1.
  unfold mbind at 1. unfold M_bind at 1. unfold get_world at 1.
  world_simpl. unfold AbstractEntity.data at 1. rewrite Hl. simpl default.
  reflexivity.
Qed.

Lemma invoke_at_invoke_called c i w func out h1 recs :
  (∀ a, a ∈ Provider.args func → is_Some (engine_services c i w !! a)) →
  func_body func (filter (fun kv => kv.1 ∈ Provider.args func) (engine_services c i w))
            (ensure_results c (heap w)) = (out, h1, recs) →
  Provider.invoke (provider_for c i) func (at_invoke c w)
  = (out,
     set_handlers (fmap (fun l => l ++ recs))
       (set_calls (fun cs => cs ++ [(func_id func,
                     filter (fun kv => kv.1 ∈ Provider.args func) (engine_services c i w))])
          (set_heap (fun _ => h1) (at_invoke c w)))).
Proof.
  intros Hall Hbody. rewrite invoke_available; [|exact Hall].
  unfold call.
  change (Provider._services _ ∪ _registered_services (at_invoke c w))
    with (engine_services c i w).
  change (heap (at_invoke c w)) with (ensure_results c (heap w)).
  by rewrite Hbody.
Qed.

Lemma handlers_at_invoke c w recs :
  ((fun l => l ++ recs) <$> root_handlers (at_invoke c w))
    !! fresh (dom (root_handlers w)) = Some recs.
Proof. unfold at_invoke. world_simpl. apply handler_roundtrip. Qed.

Lemma handlers_detached (m : gmap nat (list LogRecord)) (recs : list LogRecord) :
  delete (fresh (dom m)) ((fun l => l ++ recs) <$> <[fresh (dom m) := []]> m)
  = (fun l => l ++ recs) <$> m.
Proof.
  rewrite fmap_insert, delete_insert_id; [done|].
  rewrite lookup_fmap. assert (m !! fresh (dom m) = None) as ->; [|done].
  apply not_elem_of_dom, is_fresh.
Qed.



(** X13: when [process] asks for a service that is neither injected nor
    registered, it is not called: the result has [success] false and the
    [KeyError] of [invoke] as [error], and is appended to the results of the
    context. *)
Theorem process_unavailable_service (env : Env) (p : PluginClass) (c : loc)
    (i : option loc) (w : World) (l : list Result) :
  hasattr p "process_instance" = false →
  hasattr p "process_context" = false →
  __init__ p = Return () →
  (∃ a, a ∈ Provider.args (process_method p) ∧ engine_services c i w !! a = None) →
  default (DResults []) (_data (get_entity (heap w) (RContext c)) !! "results")
  = DResults l →
  let r := mkResult false (oid p) i
                    (Some (extract_traceback (KeyError "Unavailable service requested.")))
                    []
                    (Some ((time_at env (S (ticks w)) - time_at env (ticks w)) * 1000)) in
  ∃ w',
    process env p c i w = (Return r, w')
    ∧ _data (get_entity (heap w') (RContext c)) !! "results" = Some (DResults (l ++ [r]))
    ∧ calls w' = calls w
    ∧ root_handlers w' = root_handlers w.
Proof.
  intros H1 H2 Hinit Hmiss Hl r.
  unfold process. rewrite H1, H2. simpl. unfold _process.
  rewrite run_method_unfold by done.
  rewrite invoke_unavailable; [|exact Hmiss]. simpl isinstance_Exception. cbv iota.
  erewrite (finish_run_appends _ _ _ _ _ _ [] l).
  - eexists. split; [reflexivity|]. split; [|split].
    + world_simpl. simpl. rewrite lookup_insert_eq. simpl. by rewrite lookup_insert_eq.
    + reflexivity.
    + unfold at_invoke. world_simpl. apply delete_insert_id.
      apply not_elem_of_dom, is_fresh.
  - unfold at_invoke. world_simpl. by rewrite lookup_insert_eq.
  - unfold at_invoke. world_simpl. by rewrite ensure_results_lookup, Hl.
Qed.

Lemma process_unavailable_service_witness :
  ∃ w',
    process (bare_env "python") repairs_ok 1%positive None world_ctx
    = (Return (mkResult false 13 None
                 (Some (extract_traceback (KeyError "Unavailable service requested.")))
                 [] (Some 1000)), w')
    ∧ _data (get_entity (heap w') (RContext 1%positive)) !! "results"
      = Some (DResults ([] ++ [mkResult false 13 None
                 (Some (extract_traceback (KeyError "Unavailable service requested.")))
                 [] (Some 1000)]))
    ∧ calls w' = calls world_ctx
    ∧ root_handlers w' = root_handlers world_ctx.
Proof.
  apply (process_unavailable_service (bare_env "python") repairs_ok 1%positive None
           world_ctx []).
  - reflexivity.
  - reflexivity.
  - reflexivity.
  - exists "user". split.
    + change ("user" ∈ ["instance"; "user"]). right. left.
    + vm_compute. reflexivity.
  - vm_compute. reflexivity.
Defined.

(** X14: an exception of [process] that does not derive from [Exception]
    ([KeyboardInterrupt], [SystemExit]) is not captured: [process] raises
    it, no result is appended to what the method left, and the handler
    attached for the run stays on the root logger. *)
Theorem process_passes_non_Exception (env : Env) (p : PluginClass) (c : loc)
    (i : option loc) (w : World) (e : exn) (h1 : Heap) (recs : list LogRecord) :
  hasattr p "process_instance" = false →
  hasattr p "process_context" = false →
  __init__ p = Return () →
  let requested := Provider.args (process_method p) in
  (∀ a, a ∈ requested → is_Some (engine_services c i w !! a)) →
  func_body (process_method p)
            (filter (fun kv => kv.1 ∈ requested) (engine_services c i w))
            (ensure_results c (heap w)) = (Raise e, h1, recs) →
  isinstance_Exception e = false →
  ∃ w',
    process env p c i w = (Raise e, w')
    ∧ heap w' = h1
    ∧ root_handlers w' !! fresh (dom (root_handlers w)) = Some recs
    ∧ root_handlers w !! fresh (dom (root_handlers w)) = None.
Proof.
  intros H1 H2 Hinit requested Hall Hbody Hexc.
  unfold process. rewrite H1, H2. simpl. unfold _process.
  rewrite run_method_unfold by done.
  rewrite (invoke_at_invoke_called c i w _ _ _ _ Hall Hbody). rewrite Hexc.
  eexists. split; [reflexivity|]. split; [reflexivity|]. split.
  - world_simpl. apply handlers_at_invoke.
  - apply not_elem_of_dom, is_fresh.
Qed.

Lemma process_passes_non_Exception_witness :
  ∃ w',
    process (bare_env "python") interrupted 1%positive None world_ctx
    = (Raise (Exn "KeyboardInterrupt" BaseExceptionOnly VNone "extract_slow.py" None), w')
    ∧ heap w' = ensure_results 1%positive (heap world_ctx)
    ∧ root_handlers w' !! fresh (dom (root_handlers world_ctx)) = Some []
    ∧ root_handlers world_ctx !! fresh (dom (root_handlers world_ctx)) = None.
Proof.
  apply (process_passes_non_Exception (bare_env "python") interrupted 1%positive None
           world_ctx).
  - reflexivity.
  - reflexivity.
  - reflexivity.
  - intros a Ha. change (a ∈ ["context"]) in Ha.
    apply list_elem_of_singleton in Ha. subst a. vm_compute. eauto.
  - reflexivity.
  - reflexivity.
Defined.



(** X16: a method that leaves the context without its ["results"] entry
    makes [process] itself raise: the [append] after the [try] statement
    finds [None], the [AttributeError] goes to the caller and the result of
    the run is recorded nowhere. *)
Theorem process_results_entry_removed (env : Env) (p : PluginClass) (c : loc)
    (i : option loc) (w : World) (out : outcome val) (h1 : Heap)
    (recs : list LogRecord) :
  hasattr p "process_instance" = false →
  hasattr p "process_context" = false →
  __init__ p = Return () →
  let requested := Provider.args (process_method p) in
  (∀ a, a ∈ requested → is_Some (engine_services c i w !! a)) →
  func_body (process_method p)
            (filter (fun kv => kv.1 ∈ requested) (engine_services c i w))
            (ensure_results c (heap w)) = (out, h1, recs) →
  (∀ e, out = Raise e → isinstance_Exception e = true) →
  _data (get_entity h1 (RContext c)) !! "results" = None →
  ∃ w',
    process env p c i w
    = (Raise (AttributeError "object has no attribute 'append'"), w')
    ∧ heap w' = h1.
Proof.
  intros H1 H2 Hinit requested Hall Hbody Hexc Hl.
  unfold process. rewrite H1, H2. simpl. unfold _process.
  rewrite run_method_unfold by done.
  rewrite (invoke_at_invoke_called c i w _ _ _ _ Hall Hbody).
  destruct out as [v|e].
  - erewrite finish_run_no_list; [|apply handlers_at_invoke|exact Hl].
    eexists. split; reflexivity.
  - rewrite (Hexc e eq_refl).
    erewrite finish_run_no_list; [|apply handlers_at_invoke|exact Hl].
    eexists. split; reflexivity.
Qed.

Lemma process_results_entry_removed_witness :
  ∃ w',
    process (bare_env "python") drops_results 1%positive None world_ctx
    = (Raise (AttributeError "object has no attribute 'append'"), w')
    ∧ heap w' = mkHeap (<[1%positive := empty_entity]> ∅) ∅.
Proof.
  apply (process_results_entry_removed (bare_env "python") drops_results 1%positive None
           world_ctx (Return VNone) (mkHeap (<[1%positive := empty_entity]> ∅) ∅) []).
  - reflexivity.
  - reflexivity.
  - reflexivity.
  - intros a Ha. change (a ∈ ["context"]) in Ha.
    apply list_elem_of_singleton in Ha. subst a. vm_compute. eauto.
  - vm_compute. reflexivity.
  - intros e He. discriminate.
  - vm_compute. reflexivity.
Defined.

(** ** Services *)

(** X17: an object injected into a provider is the service of that name,
    whatever is registered under the name; for the other names the
    provider's own objects come first and the registered services after
    them.  Reading the services changes no state. *)
Theorem services_precedence (self : Provider.t) (n : string) (obj : val) (w : World) :
  ∃ m : gmap string val,
    Provider.services (Provider.inject self n obj) w = (Return m, w)
    ∧ m !! n = Some obj
    ∧ ∀ k, k ≠ n →
        m !! k = match Provider._services self !! k with
                 | Some v => Some v
                 | None => _registered_services w !! k
                 end.
Proof.
  eexists. split; [reflexivity|]. simpl. split.
  - apply lookup_union_Some_l. by rewrite lookup_insert_eq.
  - intros k Hk. rewrite lookup_union, lookup_insert_ne by done.
    destruct (Provider._services self !! k), (_registered_services w !! k); done.
Qed.

(** X18: a service registered with [register_service] reaches a callable
    that has its name among its parameters, when the provider has no object
    of its own under that name. *)
Theorem registered_service_injected (self : Provider.t) (func : Callable)
    (n : string) (obj : val) (w : World) :
  n ∈ Provider.args func →
  Provider._services self !! n = None →
  (∀ a, a ∈ Provider.args func → a ≠ n →
        is_Some ((Provider._services self ∪ _registered_services w) !! a)) →
  ∃ kw : gmap string val,
    calls (Provider.invoke self func (register_service n obj w).2).2
    = calls w ++ [(func_id func, kw)]
    ∧ kw !! n = Some obj.
Proof.
  intros Hn Hself Hall. simpl.
  rewrite invoke_available.
  - unfold call. world_simpl.
    destruct (func_body func _ _) as [[r h'] recs]. world_simpl.
    eexists. split; [reflexivity|].
    apply map_lookup_filter_Some. split; [|done].
    rewrite lookup_union_r by done. by rewrite lookup_insert_eq.
  - intros a Ha. world_simpl. destruct (decide (a = n)) as [->|Hne].
    + rewrite lookup_union_r by done. rewrite lookup_insert_eq. eauto.
    + specialize (Hall a Ha Hne). rewrite lookup_union in Hall |- *.
      rewrite lookup_insert_ne by done. done.
Qed.

Lemma registered_service_injected_witness :
  ∃ kw : gmap string val,
    calls (Provider.invoke (provider_for 1%positive None) asks_for_user
             (register_service "user" (VStr "marcus") world0).2).2
    = calls world0 ++ [(func_id asks_for_user, kw)]
    ∧ kw !! "user" = Some (VStr "marcus").
Proof.
  apply (registered_service_injected (provider_for 1%positive None) asks_for_user
           "user" (VStr "marcus") world0).
  - change ("user" ∈ ["context"; "user"]). right. left.
  - vm_compute. reflexivity.
  - intros a Ha Hne. change (a ∈ ["context"; "user"]) in Ha.
    apply elem_of_cons in Ha as [->|Ha]; [vm_compute; eauto|].
    apply list_elem_of_singleton in Ha. done.
Defined.

(** X19: [deregister_service] of a name that is not registered raises
    [KeyError] and changes nothing; registering a name that was not
    registered and deregistering it gives back the services as they
    were. *)
Theorem service_register_deregister (n : string) (obj : val) (w : World) :
  _registered_services w !! n = None →
  deregister_service n w = (Raise (KeyError n), w)
  ∧ ∃ w', deregister_service n (register_service n obj w).2 = (Return (), w')
          ∧ _registered_services w' = _registered_services w
          ∧ (registered_services (register_service n obj w).2).1
            = Return (<[n := obj]> (_registered_services w)).
Proof.
  intros Hn. split.
  - unfold deregister_service, mbind, M_bind, get_world. by rewrite Hn.
  - unfold deregister_service, register_service, mbind, M_bind, get_world, modify.
    cbn [snd]. world_simpl. rewrite lookup_insert_eq.
    eexists. split; [reflexivity|]. world_simpl.
    split; [by apply delete_insert_id|done].
Qed.

Lemma service_register_deregister_witness :
  deregister_service "user" world0 = (Raise (KeyError "user"), world0)
  ∧ ∃ w', deregister_service "user" (register_service "user" VNone world0).2 = (Return (), w')
          ∧ _registered_services w' = _registered_services world0
          ∧ (registered_services (register_service "user" VNone world0).2).1
            = Return (<["user" := VNone]> (_registered_services world0)).
Proof.
  apply (service_register_deregister "user" VNone world0). reflexivity.
Defined.

(** ** The registry of plug-ins *)

(** X20: registration is by class name: an object that is not callable is
    refused with [TypeError] and nothing changes; a callable one is found
    under its name afterwards, the other names keep their classes, and a
    class registered earlier under the same name is replaced as if it had
    never been registered. *)
Theorem register_plugin_by_name (p : PluginClass) (w : World) :
  (has__call__ p = false →
     register_plugin p w
     = (Raise (TypeError "Plug-in must be callable returning an instance of a class"), w))
  ∧ (has__call__ p = true →
     ∃ w', register_plugin p w = (Return (), w')
           ∧ _registered_plugins w' !! __name__ p = Some p
           ∧ (∀ k, k ≠ __name__ p → _registered_plugins w' !! k = _registered_plugins w !! k)
           ∧ ∀ q, has__call__ q = true → __name__ q = __name__ p →
                  _registered_plugins (register_plugin q w').2
                  = _registered_plugins (register_plugin q w).2).
Proof.
  unfold register_plugin. split; intros Hc; rewrite Hc; simpl; [done|].
  eexists. split; [reflexivity|]. world_simpl. split; [|split].
  - by rewrite lookup_insert_eq.
  - intros k Hk. by rewrite lookup_insert_ne.
  - intros q Hq Hn. rewrite Hq. simpl. rewrite Hn. apply insert_insert_eq.
Qed.

(** [deregister_plugin] goes by the name of its argument: under a name
    that is not registered it raises [KeyError] and changes nothing;
    otherwise it removes the class registered under that name, which need
    not be the argument itself, and leaves the other names alone. *)
Lemma deregister_plugin_by_name (q : PluginClass) (w : World) :
  (_registered_plugins w !! __name__ q = None →
     deregister_plugin q w = (Raise (KeyError (__name__ q)), w))
  ∧ (∀ p, _registered_plugins w !! __name__ q = Some p →
       ∃ w', deregister_plugin q w = (Return (), w')
             ∧ _registered_plugins w' !! __name__ q = None
             ∧ (∀ k, k ≠ __name__ q →
                  _registered_plugins w' !! k = _registered_plugins w !! k)
             ∧ _registered_paths w' = _registered_paths w
             ∧ _registered_services w' = _registered_services w).
Proof.
  unfold deregister_plugin, mbind, M_bind, get_world. split.
  - intros ->. done.
  - intros p ->. eexists. split; [reflexivity|]. world_simpl. split; [|split].
    + by rewrite lookup_delete_eq.
    + intros k Hk. by rewrite lookup_delete_ne.
    + done.
Qed.

(** X21: a callable class whose name is not registered cannot be
    deregistered: [KeyError], nothing changes.  Once registered it is among
    [registered_plugins()], and deregistering it gives back the registry
    as it was. *)
Theorem register_deregister_plugin (p : PluginClass) (w : World) :
  has__call__ p = true →
  _registered_plugins w !! __name__ p = None →
  deregister_plugin p w = (Raise (KeyError (__name__ p)), w)
  ∧ ∃ w1 w2 l,
      register_plugin p w = (Return (), w1)
      ∧ registered_plugins w1 = (Return l, w1) ∧ p ∈ l
      ∧ deregister_plugin p w1 = (Return (), w2)
      ∧ _registered_plugins w2 = _registered_plugins w
      ∧ _registered_paths w2 = _registered_paths w
      ∧ _registered_services w2 = _registered_services w.
Proof.
  intros Hc Hn. split.
  - by apply deregister_plugin_by_name.
  - unfold register_plugin. rewrite Hc. simpl.
    eexists _, _, _. split; [reflexivity|]. split; [reflexivity|]. split.
    + world_simpl. apply list_elem_of_fmap. exists (__name__ p, p). split; [done|].
      apply elem_of_map_to_list. by rewrite lookup_insert_eq.
    + unfold deregister_plugin, mbind, M_bind, get_world. world_simpl.
      rewrite lookup_insert_eq. split; [reflexivity|]. world_simpl.
      split; [by apply delete_insert_id|done].
Qed.

Lemma register_deregister_plugin_witness :
  deregister_plugin check_naming world0 = (Raise (KeyError (__name__ check_naming)), world0)
  ∧ ∃ w1 w2 l,
      register_plugin check_naming world0 = (Return (), w1)
      ∧ registered_plugins w1 = (Return l, w1) ∧ check_naming ∈ l
      ∧ deregister_plugin check_naming w1 = (Return (), w2)
      ∧ _registered_plugins w2 = _registered_plugins world0
      ∧ _registered_paths w2 = _registered_paths world0
      ∧ _registered_services w2 = _registered_services world0.
Proof.
  apply (register_deregister_plugin check_naming world0); reflexivity.
Defined.

(** ** Search paths *)

Lemma list_remove_None x l : list_remove x l = None ↔ x ∉ l.
Proof.
  induction l as [|y l IH]; simpl.
  - split; [intros _; apply not_elem_of_nil|done].
  - rewrite not_elem_of_cons. case_bool_decide as Hy.
    + split; [done|]. intros [Hne _]. congruence.
    + destruct (list_remove x l); simpl.
      * split; [done|]. intros [_ Hn]. by apply IH in Hn.
      * split; [|done]. intros _. split; [congruence|]. by apply IH.
Qed.

Lemma list_remove_NoDup x l l' :
  NoDup l → list_remove x l = Some l' → l' = filter (fun y => y ≠ x) l.
Proof.
  intros Hnd. revert l'. induction Hnd as [|y l Hy Hnd IH]; intros l'; simpl; [done|].
  rewrite filter_cons. case_bool_decide as Hyx.
  - intros [= <-]. subst y. rewrite decide_False by (intros H; by apply H).
    clear IH Hnd. induction l as [|z l IH]; [done|].
    apply not_elem_of_cons in Hy as [Hz Hy].
    rewrite filter_cons, decide_True by congruence. f_equal. by apply IH.
  - rewrite decide_True by done.
    destruct (list_remove x l) as [l2|]; simpl; [|done].
    intros [= <-]. f_equal. by apply IH.
Qed.

Lemma list_remove_last x l : x ∉ l → list_remove x (l ++ [x]) = Some l.
Proof.
  induction l as [|y l IH]; simpl; intros Hx.
  - by rewrite bool_decide_eq_true_2.
  - apply not_elem_of_cons in Hx as [Hne Hx].
    rewrite bool_decide_eq_false_2 by congruence. by rewrite IH.
Qed.

(** X22: [deregister_plugin_path] of a path that is not registered raises
    [ValueError] and changes nothing; of a registered one, on a list without
    duplicates, it leaves the other paths in their order and the path is
    registered no more. *)
Theorem deregister_plugin_path_spec (path : string) (w : World) :
  NoDup (_registered_paths w) →
  (path ∉ _registered_paths w →
     deregister_plugin_path path w
     = (Raise (ValueError "list.remove(x): x not in list"), w))
  ∧ (path ∈ _registered_paths w →
     ∃ w', deregister_plugin_path path w = (Return (), w')
           ∧ _registered_paths w' = filter (fun y => y ≠ path) (_registered_paths w)
           ∧ (path ∉ _registered_paths w')
           ∧ _registered_plugins w' = _registered_plugins w).
Proof.
  intros Hnd. unfold deregister_plugin_path, mbind, M_bind, get_world. split.
  - intros Hn. apply list_remove_None in Hn. by rewrite Hn.
  - intros Hin. destruct (list_remove path (_registered_paths w)) as [l|] eqn:E.
    + eexists. split; [reflexivity|]. world_simpl.
      rewrite (list_remove_NoDup _ _ _ Hnd E). split; [done|]. split; [|done].
      rewrite list_elem_of_filter. intros [Hne _]. by apply Hne.
    + apply list_remove_None in E. done.
Qed.

Lemma deregister_plugin_path_spec_witness :
  deregister_plugin_path "/server/plugins" world0
  = (Raise (ValueError "list.remove(x): x not in list"), world0).
Proof.
  apply (deregister_plugin_path_spec "/server/plugins" world0).
  - apply NoDup_nil_2.
  - apply not_elem_of_nil.
Defined.

(** X23: registering a path that was not registered returns the path, and
    deregistering it then gives back the list of paths as it was. *)
Theorem register_deregister_path (path : string) (w : World) :
  path ∉ _registered_paths w →
  ∃ w1 w2,
    register_plugin_path path w = (Return (Some path), w1)
    ∧ (registered_paths w1).1 = Return (_registered_paths w ++ [path])
    ∧ deregister_plugin_path path w1 = (Return (), w2)
    ∧ _registered_paths w2 = _registered_paths w
    ∧ log w2 = log w.
Proof.
  intros Hn. unfold register_plugin_path, mbind, M_bind, get_world.
  rewrite bool_decide_eq_false_2 by done. simpl.
  eexists _, _. split; [reflexivity|]. split; [reflexivity|].
  unfold deregister_plugin_path, mbind, M_bind, get_world. world_simpl.
  rewrite list_remove_last by done. split; [reflexivity|]. done.
Qed.

Lemma register_deregister_path_witness :
  ∃ w1 w2,
    register_plugin_path "/server/plugins" world0 = (Return (Some "/server/plugins"), w1)
    ∧ (registered_paths w1).1 = Return (_registered_paths world0 ++ ["/server/plugins"])
    ∧ deregister_plugin_path "/server/plugins" w1 = (Return (), w2)
    ∧ _registered_paths w2 = _registered_paths world0
    ∧ log w2 = log world0.
Proof.
  apply (register_deregister_path "/server/plugins" world0). apply not_elem_of_nil.
Defined.

Lemma dedup_fold (l acc : list string) :
  NoDup acc →
  let r := foldl (fun paths path =>
                    if bool_decide (path ∈ paths) then paths else paths ++ [path]) acc l in
  NoDup r ∧ (∀ x, x ∈ r ↔ x ∈ acc ∨ x ∈ l) ∧ acc `prefix_of` r.
Proof.
  revert acc. induction l as [|y l IH]; intros acc Hacc; simpl.
  - split; [done|]. split; [|done]. intros x. rewrite elem_of_nil. tauto.
  - case_bool_decide as Hy.
    + destruct (IH acc Hacc) as (Hnd & Hel & Hpre). split; [done|]. split; [|done].
      intros x. rewrite Hel, elem_of_cons. split; [tauto|].
      intros [?|[->|?]]; auto.
    + destruct (IH (acc ++ [y])) as (Hnd & Hel & Hpre).
      { apply NoDup_app. split; [done|]. split; [|apply NoDup_singleton].
        intros x Hx Hx'. apply list_elem_of_singleton in Hx'. by subst. }
      split; [done|]. split.
      * intros x. rewrite Hel, elem_of_app, list_elem_of_singleton, elem_of_cons. tauto.
      * etrans; [|exact Hpre]. by apply prefix_app_r.
Qed.

Lemma dedup_fold_distinct (l acc : list string) :
  NoDup (acc ++ l) →
  foldl (fun paths path =>
           if bool_decide (path ∈ paths) then paths else paths ++ [path]) acc l
  = acc ++ l.
Proof.
  revert acc. induction l as [|y l IH]; intros acc Hnd; simpl.
  - by rewrite app_nil_r.
  - apply NoDup_app in Hnd as Hnd'. destruct Hnd' as (_ & Hdis & _).
    rewrite bool_decide_eq_false_2 by (intros Hy; apply (Hdis y Hy); left).
    rewrite IH; [by rewrite <- app_assoc|]. by rewrite <- app_assoc.
Qed.


(** ** Validity, host detection and ordering *)

Lemma check_roles_cases p :
  let ok := ¬ (issubclass p Selector = true ∧ hosts p = [])
            ∧ ¬ ((issubclass p Validator = true ∨ issubclass p Extractor = true)
                 ∧ hosts p = [] ∧ families p = [])
            ∧ ¬ (issubclass p Conformer = true ∧ families p = []) in
  (check_roles p = Return () ∧ ok)
  ∨ (¬ ok ∧ (check_roles p = Raise (Exception 0) ∨ check_roles p = Raise (Exception 1)
             ∨ check_roles p = Raise (Exception 2))).
Proof.
  unfold check_roles.
  destruct (issubclass p Selector), (issubclass p Validator), (issubclass p Extractor),
    (issubclass p Conformer), (hosts p) as [|hh ht], (families p) as [|fh ft]; simpl;
    first [ left; split; [reflexivity|]; intuition congruence
          | right; split; [|auto]; intros (Hs & Hv & Hc);
            first [ by apply Hs | apply Hv; by auto | by apply Hc ] ].
Qed.

(** X25: [plugin_is_valid] is true exactly for a class that derives from
    [Plugin], has a string for [requires], and is not a Selector without
    hosts, not a Validator or Extractor without both hosts and families, and
    not a Conformer without families.  It logs nothing for a valid plug-in
    and at most one record otherwise. *)
Theorem plugin_is_valid_iff (p : PluginClass) (w : World) :
  ∃ b w',
    plugin_is_valid p w = (Return b, w')
    ∧ (b = true ↔
       isclass p = true ∧ issubclass p Plugin = true
       ∧ isinstance_basestring (requires p) = true
       ∧ ¬ (issubclass p Selector = true ∧ hosts p = [])
       ∧ ¬ ((issubclass p Validator = true ∨ issubclass p Extractor = true)
            ∧ hosts p = [] ∧ families p = [])
       ∧ ¬ (issubclass p Conformer = true ∧ families p = []))
    ∧ (b = true → w' = w)
    ∧ (w' = w ∨ ∃ r, w' = set_log (fun l => l ++ [r]) w).
Proof.
  unfold plugin_is_valid.
  destruct (isclass p); simpl;
    [|eexists _, _; split; [reflexivity|]; split; [|split; [done|by left]];
      split; [done|intros (?&_); done]].
  destruct (issubclass p Plugin); simpl;
    [|eexists _, _; split; [reflexivity|]; split; [|split; [done|by left]];
      split; [done|intros (_&?&_); done]].
  destruct (isinstance_basestring (requires p)); simpl;
    [|eexists _, _; split; [reflexivity|]; split; [|split; [done|right; by eexists]];
      split; [done|intros (_&_&?&_); done]].
  destruct (check_roles_cases p) as [[-> Hok]|[Hno [-> |[-> | ->]]]].
  - eexists _, _. split; [reflexivity|]. split; [|split; [done|by left]].
    split; [intros _; repeat split; apply Hok|done].
  - eexists _, _. split; [reflexivity|]. split; [|split; [done|right; by eexists]].
    split; [done|]. intros (_&_&_&H). by destruct Hno.
  - eexists _, _. split; [reflexivity|]. split; [|split; [done|right; by eexists]].
    split; [done|]. intros (_&_&_&H). by destruct Hno.
  - eexists _, _. split; [reflexivity|]. split; [|split; [done|right; by eexists]].
    split; [done|]. intros (_&_&_&H). by destruct Hno.
Qed.

Lemma prefix_occurs a b : String.prefix a b = true ↔ ∃ post, b = a +:+ post.
Proof.
  revert a. induction b as [|y b IH]; intros [|x a]; simpl.
  - split; [by exists ""|done].
  - split; [done|]. intros [post H]. done.
  - split; [|done]. intros _. by eexists.
  - destruct (Ascii.ascii_dec x y) as [->|Hne].
    + rewrite IH. split; intros [post H]; exists post.
      * change (String y b = String y (a +:+ post)). by rewrite H.
      * change (String y b = String y (a +:+ post)) in H. by simplify_eq.
    + split; [done|]. intros [post H].
      change (String y b = String x (a +:+ post)) in H. by simplify_eq.
Qed.

Lemma str_in_empty needle : str_in needle "" = String.prefix needle "" || false.
Proof. reflexivity. Qed.

Lemma str_in_cons needle y hay :
  str_in needle (String y hay) = String.prefix needle (String y hay) || str_in needle hay.
Proof. reflexivity. Qed.

Lemma str_in_occurs needle hay :
  str_in needle hay = true ↔ ∃ pre post, hay = pre +:+ needle +:+ post.
Proof.
  induction hay as [|y hay IH].
  - rewrite str_in_empty, orb_false_r, prefix_occurs. split.
    + intros [post H]. by exists "", post.
    + intros ([|x pre] & post & H); [by exists post|done].
  - rewrite str_in_cons, orb_true_iff, IH, prefix_occurs. split.
    + intros [[post H]|(pre & post & H)].
      * by exists "", post.
      * exists (String y pre), post.
        change (String y hay = String y (pre +:+ needle +:+ post)). by rewrite H.
    + intros ([|x pre] & post & H).
      * left. by exists post.
      * right. change (String y hay = String x (pre +:+ needle +:+ post)) in H.
        simplify_eq. by exists pre, post.
Qed.

(** X26: the host that [current_host] returns is one of the five known
    names and occurs in the name of the executable, and ["python"] goes
    before the others: another host is returned only when ["python"] does
    not occur.  It raises exactly when none of the five names occurs. *)
Theorem current_host_occurs (env : Env) :
  let occurs h := ∃ pre post, executable env = pre +:+ h +:+ post in
  match current_host env with
  | Return host =>
      host ∈ ["python"; "maya"; "nuke"; "modo"; "houdini"]
      ∧ occurs host
      ∧ (host ≠ "python" → ¬ occurs "python")
  | Raise e =>
      exn_type e = "ValueError"
      ∧ ∀ h, h ∈ ["python"; "maya"; "nuke"; "modo"; "houdini"] → ¬ occurs h
  end.
Proof.
  intros occurs. unfold current_host.
  destruct (str_in "python" (executable env)) eqn:E1.
  { split; [set_solver|]. split; [by apply str_in_occurs|done]. }
  assert (¬ occurs "python") as Hpy.
  { intros H. apply str_in_occurs in H. congruence. }
  destruct (str_in "maya" (executable env)) eqn:E2.
  { split; [set_solver|]. split; [by apply str_in_occurs|done]. }
  destruct (str_in "nuke" (executable env)) eqn:E3.
  { split; [set_solver|]. split; [by apply str_in_occurs|done]. }
  destruct (str_in "modo" (executable env)) eqn:E4.
  { split; [set_solver|]. split; [by apply str_in_occurs|done]. }
  destruct (str_in "houdini" (executable env)) eqn:E5.
  { split; [set_solver|]. split; [by apply str_in_occurs|done]. }
  split; [done|]. intros h Hh Hocc. apply str_in_occurs in Hocc.
  repeat (apply elem_of_cons in Hh as [->|Hh]; [congruence|]).
  by apply elem_of_nil in Hh.
Qed.

Example current_host_mayapy :
  current_host (bare_env "mayapy") = Return "maya"
  ∧ current_host (bare_env "python_for_maya") = Return "python".
Proof. split; vm_compute; reflexivity. Qed.

Lemma sort_sorted_by_order l : StronglySorted by_order (sort l).
Proof.
  induction l as [|p l IH]; simpl; [constructor|]. by apply sort_insert_sorted.
Qed.

Lemma sort_insert_least p l :
  Forall (by_order p) l → sort_insert p l = p :: l.
Proof.
  destruct 1 as [|q l Hq _]; simpl; [done|].
  unfold by_order, order_le in Hq. apply negb_true_iff in Hq. by rewrite Hq.
Qed.

Lemma sort_of_sorted l : StronglySorted by_order l → sort l = l.
Proof.
  induction 1 as [|p l Hs IH Hp]; simpl; [done|].
  rewrite IH. by apply sort_insert_least.
Qed.

(** X27: [sort] leaves a list alone that is non-decreasing in [order]
    already, so sorting twice is sorting once. *)
Theorem sort_idempotent (plugins : list PluginClass) :
  sort (sort plugins) = sort plugins
  ∧ (StronglySorted (fun p q => match order p, order q with
                                | None, _ => True
                                | Some _, None => False
                                | Some x, Some y => x ≤ y
                                end) plugins
     → sort plugins = plugins).
Proof.
  split.
  - apply sort_of_sorted, sort_sorted_by_order.
  - intros Hs. apply sort_of_sorted.
    eapply StronglySorted_weaken; [|exact Hs].
    intros p q. unfold by_order. by rewrite order_le_spec.
Qed.

(** ** Discovery *)

Lemma set_log_nil w : w = set_log (fun x => x ++ []) w.
Proof. destruct w. unfold set_log. simpl. by rewrite app_nil_r. Qed.

Lemma set_log_app l1 l2 w :
  set_log (fun x => x ++ l2) (set_log (fun x => x ++ l1) w)
  = set_log (fun x => x ++ (l1 ++ l2)) w.
Proof. destruct w. unfold set_log. simpl. by rewrite app_assoc. Qed.

Lemma log_only_ret {A} (a : A) : log_only (mret a).
Proof. intros w. exists []. apply set_log_nil. Qed.

Lemma log_only_raise {A} (e : exn) : log_only (@raise A e).
Proof. intros w. exists []. apply set_log_nil. Qed.

Lemma log_only_get : log_only get_world.
Proof. intros w. exists []. apply set_log_nil. Qed.

Lemma log_only_emit lvl m a : log_only (log_emit lvl m a).
Proof. intros w. by eexists. Qed.

Lemma log_only_bind {A B} (m : M A) (f : A → M B) :
  log_only m → (∀ a, log_only (f a)) → log_only (m ≫= f).
Proof.
  intros Hm Hf w. unfold mbind, M_bind.
  destruct (Hm w) as [l1 H1]. destruct (m w) as [[a|e] w1]; simpl in H1; subst w1.
  - destruct (Hf a (set_log (fun x => x ++ l1) w)) as [l2 H2].
    exists (l1 ++ l2). by rewrite H2, set_log_app.
  - by exists l1.
Qed.

Lemma log_only_for_each {A B} (l : list A) (f : B → A → M B) :
  (∀ acc x, log_only (f acc x)) → ∀ acc, log_only (for_each l acc f).
Proof.
  intros Hf. induction l as [|x l IH]; intros acc; simpl.
  - apply log_only_ret.
  - apply log_only_bind; [apply Hf|intros a; apply IH].
Qed.

Ltac log_only_step :=
  match goal with
  | |- log_only (mret _) => apply log_only_ret
  | |- log_only (raise _) => apply log_only_raise
  | |- log_only get_world => apply log_only_get
  | |- log_only (log_emit _ _ _) => apply log_only_emit
  | |- log_only (_ ≫= _) => apply log_only_bind; [|intros ?]
  | |- log_only (for_each _ _ _) => apply log_only_for_each; intros ? ?
  | |- log_only (if ?b then _ else _) => destruct b
  | |- log_only (match ?x with _ => _ end) => destruct x
  end.

Lemma log_only_plugin_is_valid p : log_only (plugin_is_valid p).
Proof. unfold plugin_is_valid. repeat log_only_step. Qed.

Lemma log_only_version env p : log_only (version_is_compatible env p).
Proof. unfold version_is_compatible. repeat log_only_step. Qed.

Lemma log_only_host env p : log_only (host_is_compatible env p).
Proof. unfold host_is_compatible. repeat log_only_step. Qed.

Lemma log_only_filter_plugin env ttc regex acc item :
  log_only (filter_plugin env ttc regex acc item).
Proof.
  unfold filter_plugin. destruct item as [k q].
  apply log_only_bind; [apply log_only_plugin_is_valid|intros valid].
  destruct valid; simpl; [|apply log_only_ret].
  apply log_only_bind; [apply log_only_version|intros compatible].
  destruct compatible; simpl; [|repeat log_only_step].
  apply log_only_bind; [apply log_only_host|intros host_ok].
  destruct host_ok; simpl; repeat log_only_step.
Qed.

Lemma log_only_scan_file env ttc path d fname :
  log_only (scan_file env ttc path d fname).
Proof. unfold scan_file. repeat log_only_step. Qed.

Lemma log_only_scan_path env ttc d path : log_only (scan_path env ttc d path).
Proof.
  unfold scan_path. destruct (negb _); [apply log_only_ret|].
  apply log_only_for_each. intros acc x. apply log_only_scan_file.
Qed.

Lemma log_only_plugin_paths env : log_only (plugin_paths env).
Proof.
  unfold plugin_paths, registered_paths, configured_paths, environment_paths.
  repeat log_only_step.
Qed.


Lemma host_is_compatible_any_state env q w w2 :
  (host_is_compatible env q w).1 = Return true →
  (host_is_compatible env q w2).1 = Return true.
Proof.
  intros H. destruct (host_is_compatible_detected env q w H) as (host & Hh & Hin).
  rewrite (host_is_compatible_run _ _ _ _ Hh). simpl. by rewrite Hin.
Qed.

(** A step of the filter loop that returns adds nothing, or adds a plug-in
    that passes the checks and was not in the list. *)
Lemma filter_plugin_inv env type_ regex acc k q w acc' w' :
  filter_plugin env (types_to_check_of type_) regex acc (k, q) w = (Return acc', w') →
  acc' = acc
  ∨ (acc' = acc ++ [q] ∧ passes_checks env type_ q ∧ plugin_in q acc = false).
Proof.
  unfold filter_plugin, mbind, M_bind.
  destruct (plugin_is_valid_run q w) as (b & w1 & -> & _ & Hvalid).
  destruct b; simpl; [|intros [= <- _]; by left].
  rewrite version_is_compatible_run.
  destruct (iscompatible env (requires q)) eqn:Hc; simpl; [|intros [= <- _]; by left].
  destruct (host_is_compatible env q w1) as [[hb|e] w2] eqn:Hh; [|done].
  destruct hb; simpl; [|intros [= <- _]; by left].
  destruct (plugin_in q acc) eqn:Hin; simpl; [intros [= <- _]; by left|].
  destruct (existsb _ (types_to_check_of type_)) eqn:Ht; simpl;
    [|intros [= <- _]; by left].
  assert (passes_checks env type_ q) as Hpass.
  { split; [done|]. split; [done|]. split.
    - intros w0. apply (host_is_compatible_any_state env q w1). by rewrite Hh.
    - apply existsb_exists in Ht as (t & Ht & Hs). exists t.
      split; [by apply list_elem_of_In|done]. }
  destruct regex as [r|].
  - destruct (re_match env r k); intros [= <- _]; [right|left]; done.
  - intros [= <- _]. by right.
Qed.

Lemma filter_loop_inv env type_ regex its :
  ∀ acc w acc' w',
    for_each its acc (filter_plugin env (types_to_check_of type_) regex) w
    = (Return acc', w') →
    NoDup (oid <$> acc) → (∀ p, p ∈ acc → passes_checks env type_ p) →
    NoDup (oid <$> acc') ∧ (∀ p, p ∈ acc' → passes_checks env type_ p).
Proof.
  induction its as [|[k q] its IH]; intros acc w acc' w' Hrun Hnd Hacc.
  - simpl in Hrun. unfold mret, M_ret in Hrun. by simplify_eq.
  - rewrite for_each_cons in Hrun.
    destruct (filter_plugin env (types_to_check_of type_) regex acc (k, q) w)
      as [[acc1|e] w1] eqn:Hstep; [|done].
    apply filter_plugin_inv in Hstep as [->|(-> & Hpass & Hin)].
    + by eapply IH.
    + eapply IH; [exact Hrun| |].
      * rewrite fmap_app. apply NoDup_app. split; [done|].
        split; [|apply NoDup_singleton].
        intros x Hx Hx'. apply list_elem_of_singleton in Hx' as ->.
        apply list_elem_of_fmap in Hx as (p & Hp & Hpin).
        eapply plugin_in_false in Hin; [|exact Hpin]. congruence.
      * intros p Hp. apply elem_of_app in Hp as [Hp|Hp]; [by apply Hacc|].
        by apply list_elem_of_singleton in Hp as ->.
Qed.

Lemma discover_returns_inv env type_ regex paths w ps w' :
  discover env type_ regex paths w = (Return ps, w') →
  ∃ its w1 ps0,
    for_each its [] (filter_plugin env (types_to_check_of type_) regex) w1
    = (Return ps0, w')
    ∧ ps = sort ps0.
Proof.
  unfold discover. unfold mbind at 1. unfold M_bind at 1.
  destruct (match type_ with
            | Some t => if bool_decide (t ∈ pattern_keys) then mret ()
                        else raise (ValueError ("Type not recognised: " +:+ t))
            | None => mret ()
            end w) as [[[]|e] wa]; [|done].
  unfold mbind at 1. unfold M_bind at 1. unfold get_world at 1.
  unfold mbind at 1. unfold M_bind at 1.
  destruct (match paths with
            | Some (p :: ps1) => mret (p :: ps1)
            | _ => plugin_paths env
            end wa) as [[search|e] wb]; [|done].
  unfold mbind at 1. unfold M_bind at 1.
  destruct (for_each search (_registered_plugins wa) _ wb) as [[d|e] wc]; [|done].
  unfold mbind at 1. unfold M_bind at 1.
  fold (types_to_check_of type_).
  destruct (for_each (map_to_list d) [] _ wc) as [[ps0|e] wd] eqn:Hloop; [|done].
  intros [= <- <-]. eauto.
Qed.

(** X29: the list that [discover] returns is non-decreasing in [order],
    holds no class twice, and every class in it is valid, compatible with
    the version and with the host, and derives from a stage that was asked
    for. *)
Theorem discover_sound (env : Env) (type_ regex : option string)
    (paths : option (list string)) (w : World) (ps : list PluginClass) (w' : World) :
  discover env type_ regex paths w = (Return ps, w') →
  StronglySorted (fun p q => match order p, order q with
                             | None, _ => True
                             | Some _, None => False
                             | Some x, Some y => x ≤ y
                             end) ps
  ∧ NoDup (oid <$> ps)
  ∧ ∀ p, p ∈ ps →
      (plugin_is_valid p w).1 = Return true
      ∧ (version_is_compatible env p w).1 = Return true
      ∧ (host_is_compatible env p w).1 = Return true
      ∧ ∃ t, t ∈ match type_ with Some t => [t] | None => pattern_keys end
             ∧ issubclass p (types t) = true.
Proof.
  intros Hd. apply discover_returns_inv in Hd as (its & w1 & ps0 & Hloop & ->).
  apply filter_loop_inv in Hloop as [Hnd Hall];
    [|apply NoDup_nil_2|intros p Hp; by apply elem_of_nil in Hp].
  split; [|split].
  - eapply StronglySorted_weaken; [|apply sort_sorted_by_order].
    intros p q. unfold by_order. by rewrite order_le_spec.
  - by rewrite sort_perm.
  - intros p Hp. rewrite sort_perm in Hp. destruct (Hall p Hp) as (Hv & Hc & Hh & Ht).
    split; [done|]. split; [by rewrite version_is_compatible_run, Hc|]. done.
Qed.

Lemma discover_sound_witness :
  NoDup (oid <$> [naming_from_disk])
  ∧ (plugin_is_valid naming_from_disk (register_plugin_path "/plugins" world0).2).1
    = Return true.
Proof.
  destruct (discover_sound disk_env None None None
              (register_plugin_path "/plugins" world0).2 [naming_from_disk]
              (register_plugin_path "/plugins" world0).2) as (_ & Hnd & Hall).
  - vm_compute. reflexivity.
  - split; [exact Hnd|]. apply (Hall naming_from_disk). left.
Defined.

Lemma for_each_returns {A B} (l : list A) (f : B → A → M B) :
  (∀ acc x w, ∃ acc' w', f acc x w = (Return acc', w')) →
  ∀ acc w, ∃ acc' w', for_each l acc f w = (Return acc', w').
Proof.
  intros Hf. induction l as [|x l IH]; intros acc w.
  - by eexists _, _.
  - rewrite for_each_cons. destruct (Hf acc x w) as (acc1 & w1 & ->). apply IH.
Qed.

Lemma scan_file_returns env ttc path d fname w :
  import_failures_caught env →
  ∃ d' w', scan_file env ttc path d fname w = (Return d', w').
Proof.
  intros Hq. unfold scan_file.
  destruct (negb _); [by eexists _, _|]. destruct (negb _); [by eexists _, _|].
  destruct (import_module env path (splitext env fname)) as [module|err] eqn:E.
  - by eexists _, _.
  - rewrite (Hq _ _ _ E). by eexists _, _.
Qed.

Lemma filter_plugin_returns env host ttc regex acc item w :
  current_host env = Return host →
  ∃ acc' w', filter_plugin env ttc regex acc item w = (Return acc', w').
Proof.
  intros Hhost. destruct item as [k q]. unfold filter_plugin, mbind, M_bind.
  destruct (plugin_is_valid_run q w) as (b & w1 & -> & _ & _).
  destruct b; simpl; [|by eexists _, _].
  rewrite version_is_compatible_run.
  destruct (iscompatible env (requires q)); simpl; [|by eexists _, _].
  rewrite (host_is_compatible_run _ _ _ _ Hhost).
  destruct (_ || _); simpl; [|by eexists _, _].
  destruct (plugin_in q acc); simpl; [by eexists _, _|].
  destruct (existsb _ ttc); simpl; [|by eexists _, _].
  destruct regex as [r|]; [destruct (re_match env r k)|]; by eexists _, _.
Qed.


